(** * SHARCSynth: control-rate bridge, MIDI decoder, voice bank and block callbacks

    A shallow embedding of
      - src/Synth_core0/src/callback_midi_message.cpp  (module [Core0]),
      - src/unnamed/part_000                           (module [MidiArm]),
      - src/Synth_core1/src/callback_audio_processing.cpp (module [Core1]),
      - src/Synth_core2/src/callback_audio_processing.cpp (module [Core2]),
    followed by the properties proved about them.

    Conventions.
      - Bytes ([uint8_t], [char]) are integers in [Z]; the wrap-around of
        the 8-bit counters is written out with [mod 256].
      - C arrays are lists, read with [!!] and written with [<[i:=x]>].
        A C access outside an array is undefined: a loop over a whole array
        fails ([None]) on an array that is too short, a single access reads
        nothing and writes nothing, and the theorems that depend on it carry
        the array lengths as hypotheses.
      - [float] values are rationals ([Q]) and float arithmetic is exact
        rational arithmetic: rounding is not modelled.  Every scaling by
        1/128 or 0.25 that the sources perform on a byte is exact in binary
        floating point as well. *)

From Stdlib Require Import ZArith QArith Qround Lia List String.
From stdpp Require Import base option list.

Set Default Proof Using "Type".

(** ** The control-rate bridge (common/multicore_shared_memory.h)

    The declaration of the shared structure is not among the sources; the
    fields below are the ones the sources read and write, with the element
    types they are used at. *)
Module Bridge.

Record MIDI_NOTE := mk_note { velocity : Z; velocity_prev : Z }.

Record MULTICORE_DATA := mk_data {
  midi_note : list MIDI_NOTE;
  midi_note_velocities : list Z;
  midi_cc_values : list Z;
  midi_cc_values_prev : list Z
}.

(** [multicore_data->midi_note[i].velocity = v] *)
Definition set_velocity (d : MULTICORE_DATA) (i : nat) (v : Z) : MULTICORE_DATA :=
  match midi_note d !! i with
  | Some n =>
      mk_data (<[i := mk_note v (velocity_prev n)]> (midi_note d))
              (midi_note_velocities d) (midi_cc_values d) (midi_cc_values_prev d)
  | None => d
  end.

(** [multicore_data->midi_note[i].velocity_prev = v] *)
Definition set_velocity_prev (d : MULTICORE_DATA) (i : nat) (v : Z) : MULTICORE_DATA :=
  match midi_note d !! i with
  | Some n =>
      mk_data (<[i := mk_note (velocity n) v]> (midi_note d))
              (midi_note_velocities d) (midi_cc_values d) (midi_cc_values_prev d)
  | None => d
  end.

(** [multicore_data->midi_note_velocities[i] = v] *)
Definition set_note_velocities (d : MULTICORE_DATA) (i : nat) (v : Z) : MULTICORE_DATA :=
  mk_data (midi_note d) (<[i := v]> (midi_note_velocities d))
          (midi_cc_values d) (midi_cc_values_prev d).

(** [multicore_data->midi_cc_values[i] = v] *)
Definition set_cc_values (d : MULTICORE_DATA) (i : nat) (v : Z) : MULTICORE_DATA :=
  mk_data (midi_note d) (midi_note_velocities d)
          (<[i := v]> (midi_cc_values d)) (midi_cc_values_prev d).

(** [multicore_data->midi_cc_values_prev[i] = v] *)
Definition set_cc_values_prev (d : MULTICORE_DATA) (i : nat) (v : Z) : MULTICORE_DATA :=
  mk_data (midi_note d) (midi_note_velocities d)
          (midi_cc_values d) (<[i := v]> (midi_cc_values_prev d)).

(** Reading a byte cell [a[i]]. *)
Definition cell (a : list Z) (i : nat) : Z := default 0%Z (a !! i).

(** The velocity the bridge reports for note [i]. *)
Definition note_velocity (d : MULTICORE_DATA) (i : nat) : option Z :=
  velocity <$> midi_note d !! i.

Definition note_velocity_prev (d : MULTICORE_DATA) (i : nat) : option Z :=
  velocity_prev <$> midi_note d !! i.

(** MIDI bytes: a status byte has its high bit set, a data byte has it
    clear. *)
Definition is_status_byte (val : Z) : Prop := (0x80 <= val <= 0xFF)%Z.
Definition is_data_byte (val : Z) : Prop := (0 <= val <= 0x7F)%Z.

(** A bridge with every cell zero: 128 note slots and 128 controllers. *)
Definition zeroed : MULTICORE_DATA :=
  mk_data (replicate 128 (mk_note 0 0)) (replicate 128 0%Z)
          (replicate 128 0%Z) (replicate 128 0%Z).

(** A byte as the UART delivers it. *)
Definition is_byte (val : Z) : Prop := (0 <= val <= 0xFF)%Z.

(** Every current value of the bridge is a MIDI data byte. *)
Definition bridge_in_range (d : MULTICORE_DATA) : Prop :=
  Forall (fun n => is_data_byte (velocity n)) (midi_note d) /\
  Forall is_data_byte (midi_note_velocities d) /\
  Forall is_data_byte (midi_cc_values d).

(** A note slot after the background pass has looked at it. *)
Definition acknowledge (n : MIDI_NOTE) : MIDI_NOTE := mk_note (velocity n) (velocity n).

(** Every note slot has its previous velocity equal to its velocity. *)
Definition notes_in_sync (d : MULTICORE_DATA) : Prop :=
  forall i n, midi_note d !! i = Some n -> velocity n = velocity_prev n.

(** What the decoders never write: the previous values, and the sizes of the
    arrays. *)
Definition same_previous_values (d d' : MULTICORE_DATA) : Prop :=
  map velocity_prev (midi_note d') = map velocity_prev (midi_note d) /\
  midi_cc_values_prev d' = midi_cc_values_prev d /\
  length (midi_note_velocities d') = length (midi_note_velocities d) /\
  length (midi_cc_values d') = length (midi_cc_values d).

End Bridge.

(** ** Loops *)

(** [do { body } while (cond);] with a bound on the number of iterations.
    [None] means the bound was too small. *)
Fixpoint do_while {St : Type} (fuel : nat) (body : St -> St) (cond : St -> bool)
    (s : St) : option St :=
  match fuel with
  | O => None
  | S fuel' =>
      let s' := body s in
      if cond s' then do_while fuel' body cond s' else Some s'
  end.

(** A fallible body run for each index of a list, in order. *)
Fixpoint for_each {St : Type} (idx : list nat) (body : nat -> St -> option St)
    (s : St) : option St :=
  match idx with
  | [] => Some s
  | i :: idx' => s' ← body i s; for_each idx' body s'
  end.

(** [for (int i = 0; i < n; i++) body(i)] *)
Definition for_upto {St : Type} (n : nat) (body : nat -> St -> option St)
    (s : St) : option St :=
  for_each (seq 0 n) body s.

(** ** Core 1: the voice bank (Synth_core1/src/callback_audio_processing.cpp) *)
Module Core1.
Import Bridge.

(** The voice structure of audio_elements/simple_synth.h, which is not among
    the sources: the flag and the note that the background loop reads, the
    amplitude handed to [synth_play_note], and the oscillator position. *)
Record SIMPLE_SYNTH := mk_synth {
  playing : bool;
  note : nat;
  amplitude : Q;
  phase : nat
}.

(** Modelled from the spec: [synth_play_note] (simple_synth is not among the
    sources).  "start(note, amplitude) resets oscillator phase, sets
    playing=true, stores note and amplitude." *)
Definition synth_play_note (c : SIMPLE_SYNTH) (n : nat) (a : Q) : SIMPLE_SYNTH :=
  mk_synth true n a 0.

(** Modelled from the spec: [synth_stop_note] (simple_synth is not among the
    sources).  "stop() sets playing=false"; the stop is immediate, and the
    other fields are kept. *)
Definition synth_stop_note (c : SIMPLE_SYNTH) : SIMPLE_SYNTH :=
  mk_synth false (note c) (amplitude c) (phase c).

(** Modelled from the spec: the voice that [synth_setup] leaves
    (simple_synth is not among the sources).  Voices are "created at setup"
    and none is playing before the first note-on. *)
Definition silent : SIMPLE_SYNTH := mk_synth false 0 0 0.

(** [processaudio_setup]: [SIMPLE_SYNTH synth_voices[16]]. *)
Definition processaudio_setup : list SIMPLE_SYNTH := replicate 16 silent.

(** Modelled from the spec: [clear_buffer], [mix_2x1] and [gain_buffer] of
    audio_elements/audio_utilities.h, which is not among the sources:
    "clear accumulator", "mix (sample-wise add)", "apply a fixed output gain
    scale".  Each works on the first [n] samples of its buffers;
    [gain_buffer] has one buffer argument and scales it in place. *)
Definition clear_buffer (buf : list Q) (n : nat) : list Q :=
  replicate n 0%Q ++ drop n buf.

Definition mix_2x1 (a b out : list Q) (n : nat) : list Q :=
  zip_with Qplus (take n a) (take n b) ++ drop n out.

Definition gain_buffer (buf : list Q) (g : Q) (n : nat) : list Q :=
  map (Qmult g) (take n buf) ++ drop n buf.

Section Callback.

(** [AUDIO_BLOCK_SIZE] comes from common/audio_system_config.h. *)
Variable AUDIO_BLOCK_SIZE : nat.

(** [synth_read(&voice, out, n)]: the oscillator, which is not among the
    sources.  It returns the voice after the block and the [n] samples it
    wrote. *)
Variable synth_read : SIMPLE_SYNTH -> nat -> SIMPLE_SYNTH * list Q.

(** What the audio callback works on: the voice bank and the two output
    buffers it names. *)
Record audio := mk_audio {
  synth_voices : list SIMPLE_SYNTH;
  audiochannel_0_left_out : list Q;
  audiochannel_0_right_out : list Q
}.

(** The body of [for (int i=0;i<16;i++)] in [processaudio_callback]: voice
    [i] generates its block into [temp_audio], which is mixed into
    [temp_audio_accum]. *)
Definition mix_voice (i : nat) (s : list SIMPLE_SYNTH * list Q)
    : option (list SIMPLE_SYNTH * list Q) :=
  let '(voices, temp_audio_accum) := s in
  match voices !! i with
  | Some v =>
      let '(v', temp_audio) := synth_read v AUDIO_BLOCK_SIZE in
      Some (<[i := v']> voices,
            mix_2x1 temp_audio temp_audio_accum temp_audio_accum AUDIO_BLOCK_SIZE)
  | None => None
  end.

(** The accumulator after the loop over the 16 voices. *)
Definition mix_voices (voices : list SIMPLE_SYNTH)
    : option (list SIMPLE_SYNTH * list Q) :=
  for_upto 16 mix_voice
    (voices, clear_buffer (replicate AUDIO_BLOCK_SIZE 0%Q) AUDIO_BLOCK_SIZE).

(** [processaudio_callback].  The accumulator is a local of the function:
    after the loop the two [gain_buffer] calls are given the output buffers
    themselves. *)
Definition processaudio_callback (s : audio) : option audio :=
  '(voices, temp_audio_accum) ← mix_voices (synth_voices s);
  Some (mk_audio voices
          (gain_buffer (audiochannel_0_left_out s) (1 # 4) AUDIO_BLOCK_SIZE)
          (gain_buffer (audiochannel_0_right_out s) (1 # 4) AUDIO_BLOCK_SIZE)).

End Callback.

(** *** The background loop *)

(** State of the two scanning loops: [found], [indx] and the bank. *)
Definition scan : Type := bool * nat * list SIMPLE_SYNTH.

(** [while (!found && indx < 16)] *)
Definition scan_cond (s : scan) : bool :=
  let '(found, indx, _) := s in negb found && (indx <? 16).

(** Body of the note-off loop for note [i]:
    [if (synth_voices[indx].playing && synth_voices[indx].note == i)] ... *)
Definition note_off_body (i : nat) (s : scan) : scan :=
  let '(found, indx, voices) := s in
  match voices !! indx with
  | Some v =>
      if playing v && (note v =? i)
      then (true, S indx, <[indx := synth_stop_note v]> voices)
      else (found, S indx, voices)
  | None => (found, S indx, voices)
  end.

(** Body of the note-on loop for note [i] at amplitude [a]:
    [if (!synth_voices[indx].playing)] ... *)
Definition note_on_body (i : nat) (a : Q) (s : scan) : scan :=
  let '(found, indx, voices) := s in
  match voices !! indx with
  | Some v =>
      if negb (playing v)
      then (true, S indx, <[indx := synth_play_note v i a]> voices)
      else (found, S indx, voices)
  | None => (found, S indx, voices)
  end.

(** The note-off branch: [bool found = false; int indx = 0; do ... while]. *)
Definition note_off (i : nat) (voices : list SIMPLE_SYNTH)
    : option (list SIMPLE_SYNTH) :=
  snd <$> do_while 16 (note_off_body i) scan_cond (false, 0, voices).

(** The note-on branch; the amplitude is
    [(float)(velocity)*(1.0/128.0)]. *)
Definition note_on (i : nat) (vel : Z) (voices : list SIMPLE_SYNTH)
    : option (list SIMPLE_SYNTH) :=
  snd <$> do_while 16 (note_on_body i (inject_Z vel * (1 # 128))%Q) scan_cond
            (false, 0, voices).

(** Body of [for (int i = 0; i < 128; i ++)] in
    [processaudio_background_loop]. *)
Definition note_slot (i : nat) (s : MULTICORE_DATA * list SIMPLE_SYNTH)
    : option (MULTICORE_DATA * list SIMPLE_SYNTH) :=
  let '(d, voices) := s in
  match midi_note d !! i with
  | Some n =>
      if negb (velocity n =? velocity_prev n)%Z then
        let d' := set_velocity_prev d i (velocity n) in
        if (velocity n =? 0)%Z
        then voices' ← note_off i voices; Some (d', voices')
        else voices' ← note_on i (velocity n) voices; Some (d', voices')
      else Some s
  | None => None
  end.

Definition processaudio_background_loop (s : MULTICORE_DATA * list SIMPLE_SYNTH)
    : option (MULTICORE_DATA * list SIMPLE_SYNTH) :=
  for_upto 128 note_slot s.

(** *** Runs of the voice bank

    The MIDI decoder stores a velocity in a note slot at any time; the
    background loop runs between those stores. *)
Inductive event :=
  | store_velocity (i : nat) (v : Z)
  | background_pass.

Definition step (e : event) (s : MULTICORE_DATA * list SIMPLE_SYNTH)
    : option (MULTICORE_DATA * list SIMPLE_SYNTH) :=
  match e with
  | store_velocity i v => Some (set_velocity (fst s) i v, snd s)
  | background_pass => processaudio_background_loop s
  end.

Fixpoint run (es : list event) (s : MULTICORE_DATA * list SIMPLE_SYNTH)
    : option (MULTICORE_DATA * list SIMPLE_SYNTH) :=
  match es with
  | [] => Some s
  | e :: es' => s' ← step e s; run es' s'
  end.

(** All voices silent, all velocities and previous velocities zero. *)
Definition initial : MULTICORE_DATA * list SIMPLE_SYNTH :=
  (zeroed, processaudio_setup).

(** Voice [k] is sounding note [n]. *)
Definition sounding (voices : list SIMPLE_SYNTH) (n k : nat) : Prop :=
  exists v, voices !! k = Some v /\ playing v = true /\ note v = n.

(** At most one voice is sounding a given note. *)
Definition one_voice_per_note (voices : list SIMPLE_SYNTH) : Prop :=
  forall n j k, sounding voices n j -> sounding voices n k -> j = k.

(** *** Vocabulary of the properties *)

(** The test of the note-off loop: playing, and assigned note [i]. *)
Definition assigned (i : nat) (v : SIMPLE_SYNTH) : bool :=
  playing v && (note v =? i).

(** The test of the note-on loop. *)
Definition free (v : SIMPLE_SYNTH) : bool := negb (playing v).

(** Voice [k], holding [v], is the first voice of the bank that passes [p]. *)
Definition first_match (p : SIMPLE_SYNTH -> bool) (voices : list SIMPLE_SYNTH)
    (k : nat) (v : SIMPLE_SYNTH) : Prop :=
  voices !! k = Some v /\ p v = true /\
  forall j w, j < k -> voices !! j = Some w -> p w = false.

(** The shape the two loop bodies share: the first voice passing [p] is
    replaced by [act] of it and [found] is raised. *)
Definition scan_body (p : SIMPLE_SYNTH -> bool) (act : SIMPLE_SYNTH -> SIMPLE_SYNTH)
    (s : scan) : scan :=
  let '(found, indx, voices) := s in
  match voices !! indx with
  | Some v =>
      if p v
      then (true, S indx, <[indx := act v]> voices)
      else (found, S indx, voices)
  | None => (found, S indx, voices)
  end.

(** A note-off that stops every voice assigned to note [i] and leaves the
    others as they are. *)
Definition stops_every_match (i : nat) (voices : list SIMPLE_SYNTH) : Prop :=
  exists voices', note_off i voices = Some voices' /\
    forall k v, voices !! k = Some v ->
      voices' !! k = Some (if assigned i v then synth_stop_note v else v).

(** In every state that a run reaches from [initial], at most one voice is
    sounding a given note. *)
Definition always_one_voice_per_note : Prop :=
  forall es s, run es initial = Some s -> one_voice_per_note (snd s).

(** No note slot shows a change from one non-zero velocity to another: each
    change the pass will see is a note-off, or a note-on of a note whose
    previous velocity is zero. *)
Definition no_retrigger (d : MULTICORE_DATA) : bool :=
  forallb (fun n => (velocity n =? velocity_prev n)%Z
                    || (velocity n =? 0)%Z || (velocity_prev n =? 0)%Z)
          (midi_note d).

(** A run in which every background pass starts from a bridge with
    [no_retrigger]. *)
Fixpoint retrigger_free (es : list event) (s : MULTICORE_DATA * list SIMPLE_SYNTH) : bool :=
  match es with
  | [] => true
  | e :: es' =>
      match e with
      | background_pass => no_retrigger (fst s)
      | store_velocity _ _ => true
      end
      && match step e s with
         | Some s' => retrigger_free es' s'
         | None => true
         end
  end.

(** What such runs maintain: the bank and the bridge keep their sizes, at
    most one voice is sounding a given note, and no voice is sounding a note
    whose previous velocity is zero. *)
Definition bank_invariant (s : MULTICORE_DATA * list SIMPLE_SYNTH) : Prop :=
  length (snd s) = 16 /\ length (midi_note (fst s)) = 128 /\
  one_voice_per_note (snd s) /\
  forall i n, midi_note (fst s) !! i = Some n -> velocity_prev n = 0%Z ->
    forall k, ~ sounding (snd s) i k.

(** *** The background loop over any voice element

    [synth_play_note] and [synth_stop_note] belong to simple_synth, which is
    not among the sources, and a stop may be immediate or start a release
    ramp during which [playing] stays set.  The definitions of this section
    are the background loop again, line for line, with the two functions as
    the parameters [play] and [stop]; [note_off_body], [note_on_body],
    [note_off], [note_on], [note_slot], [processaudio_background_loop],
    [step], [run] and [retrigger_free] are their instances at
    [synth_play_note] and [synth_stop_note]. *)
Section Voice.

Variable play : SIMPLE_SYNTH -> nat -> Q -> SIMPLE_SYNTH.
Variable stop : SIMPLE_SYNTH -> SIMPLE_SYNTH.

Definition note_off_body_with (i : nat) (s : scan) : scan :=
  let '(found, indx, voices) := s in
  match voices !! indx with
  | Some v =>
      if playing v && (note v =? i)
      then (true, S indx, <[indx := stop v]> voices)
      else (found, S indx, voices)
  | None => (found, S indx, voices)
  end.

Definition note_on_body_with (i : nat) (a : Q) (s : scan) : scan :=
  let '(found, indx, voices) := s in
  match voices !! indx with
  | Some v =>
      if negb (playing v)
      then (true, S indx, <[indx := play v i a]> voices)
      else (found, S indx, voices)
  | None => (found, S indx, voices)
  end.

Definition note_off_with (i : nat) (voices : list SIMPLE_SYNTH)
    : option (list SIMPLE_SYNTH) :=
  snd <$> do_while 16 (note_off_body_with i) scan_cond (false, 0, voices).

Definition note_on_with (i : nat) (vel : Z) (voices : list SIMPLE_SYNTH)
    : option (list SIMPLE_SYNTH) :=
  snd <$> do_while 16 (note_on_body_with i (inject_Z vel * (1 # 128))%Q) scan_cond
            (false, 0, voices).

Definition note_slot_with (i : nat) (s : MULTICORE_DATA * list SIMPLE_SYNTH)
    : option (MULTICORE_DATA * list SIMPLE_SYNTH) :=
  let '(d, voices) := s in
  match midi_note d !! i with
  | Some n =>
      if negb (velocity n =? velocity_prev n)%Z then
        let d' := set_velocity_prev d i (velocity n) in
        if (velocity n =? 0)%Z
        then voices' ← note_off_with i voices; Some (d', voices')
        else voices' ← note_on_with i (velocity n) voices; Some (d', voices')
      else Some s
  | None => None
  end.

Definition background_loop_with (s : MULTICORE_DATA * list SIMPLE_SYNTH)
    : option (MULTICORE_DATA * list SIMPLE_SYNTH) :=
  for_upto 128 note_slot_with s.

Definition step_with (e : event) (s : MULTICORE_DATA * list SIMPLE_SYNTH)
    : option (MULTICORE_DATA * list SIMPLE_SYNTH) :=
  match e with
  | store_velocity i v => Some (set_velocity (fst s) i v, snd s)
  | background_pass => background_loop_with s
  end.

Fixpoint run_with (es : list event) (s : MULTICORE_DATA * list SIMPLE_SYNTH)
    : option (MULTICORE_DATA * list SIMPLE_SYNTH) :=
  match es with
  | [] => Some s
  | e :: es' => s' ← step_with e s; run_with es' s'
  end.

Fixpoint retrigger_free_with (es : list event)
    (s : MULTICORE_DATA * list SIMPLE_SYNTH) : bool :=
  match es with
  | [] => true
  | e :: es' =>
      match e with
      | background_pass => no_retrigger (fst s)
      | store_velocity _ _ => true
      end
      && match step_with e s with
         | Some s' => retrigger_free_with es' s'
         | None => true
         end
  end.

End Voice.

(** A stop that clears [playing] before it returns, and a start that stores
    the note number it is given. *)
Definition stops_at_once (stop : SIMPLE_SYNTH -> SIMPLE_SYNTH) : Prop :=
  forall v, playing (stop v) = false.
Definition stores_the_note (play : SIMPLE_SYNTH -> nat -> Q -> SIMPLE_SYNTH) : Prop :=
  forall v n a, note (play v n a) = n.

(** Modelled from the spec: the other [synth_stop_note] (simple_synth is not
    among the sources).  "implementation may apply a release ramp before
    fully silencing - if so, playing remains true until the ramp completes":
    the ramp runs in the audio callback, and the background loop finds the
    voice as it was, still playing its note. *)
Definition synth_stop_note_ramping (c : SIMPLE_SYNTH) : SIMPLE_SYNTH := c.

(** Note 60 on, note 64 on, note 60 off, note 60 on again, with a
    background pass after each store. *)
Definition note_played_twice : list event :=
  [store_velocity 60 100; background_pass; store_velocity 64 80;
   background_pass; store_velocity 60 0; background_pass;
   store_velocity 60 90; background_pass].

(** *** Concrete banks and oscillators for the examples *)

(** An oscillator that holds the voice amplitude while the voice plays and
    is silent otherwise. *)
Definition flat_read (v : SIMPLE_SYNTH) (n : nat) : SIMPLE_SYNTH * list Q :=
  (v, replicate n (if playing v then amplitude v else 0%Q)).

(** A bank whose voice 0 plays note 60 at full amplitude. *)
Definition bank_one_note : list SIMPLE_SYNTH :=
  mk_synth true 60 1 0 :: replicate 15 silent.

(** A bank whose voices 0 and 1 both play note 60. *)
Definition bank_doubled : list SIMPLE_SYNTH :=
  mk_synth true 60 (100 # 128) 0 :: mk_synth true 60 (90 # 128) 0 :: replicate 14 silent.

(** A bank with all 16 voices playing, voice [k] on note [k]. *)
Definition bank_full : list SIMPLE_SYNTH :=
  map (fun k => mk_synth true k (1 # 2) 0) (seq 0 16).

(** A bridge in which note 60 has just been switched on, or off. *)
Definition bridge_note_on : MULTICORE_DATA := set_velocity zeroed 60 100.
Definition bridge_note_off : MULTICORE_DATA :=
  set_velocity (set_velocity_prev zeroed 60 100) 60 0.

(** The voice a note-on for note [i] at velocity [vel] starts. *)
Definition started (nv : nat * Z) : SIMPLE_SYNTH :=
  mk_synth true (fst nv) (inject_Z (snd nv) * (1 # 128))%Q 0.

(** A sequence of note-ons, each given as note and velocity. *)
Fixpoint note_ons (ns : list (nat * Z)) (voices : list SIMPLE_SYNTH)
    : option (list SIMPLE_SYNTH) :=
  match ns with
  | [] => Some voices
  | nv :: ns' => voices' ← note_on (fst nv) (snd nv) voices; note_ons ns' voices'
  end.

End Core1.

(** ** Core 2: filter and delay (Synth_core2/src/callback_audio_processing.cpp) *)
Module Core2.
Import Bridge.

(** The modify entry points of the delay and filter elements
    (integer_delay_lpf.h, biquad_filter.h) are not among the sources: a call
    is recorded with its argument, in program order. *)
Inductive call :=
  | delay_modify_feedback (feedback : Q)
  | delay_modify_length (samples : Z)
  | filter_modify_freq (freq : Q).

(** Modelled from the spec: the cells of [midi_cc_values] and
    [midi_cc_values_prev] hold a "byte value (0-127/0-255 range)"; their
    declaration is not among the sources.  [char val = cell] narrows such a
    byte into a plain [char], which is signed on the SHARC: 128..255 are read
    as -128..-1.  Data bytes (0..127) pass unchanged. *)
Definition char_of (x : Z) : Z :=
  let b := (x mod 256)%Z in if (b <? 128)%Z then b else (b - 256)%Z.

(** [cell = val]: a [char] stored back into a byte cell. *)
Definition byte_of (x : Z) : Z := (x mod 256)%Z.

(** [(uint32_t) x] for a float [x]: truncation toward zero.  The conversion
    is undefined outside the range of [uint32_t]. *)
Definition uint32_of_float (x : Q) : Z := Z.quot (Qnum x) (Zpos (Qden x)).

Section SampleRate.

(** [AUDIO_SAMPLE_RATE] comes from common/audio_system_config.h. *)
Variable AUDIO_SAMPLE_RATE : Z.

(** [float delay_buffer[AUDIO_SAMPLE_RATE*2]], also the capacity given to
    [delay_setup]. *)
Definition delay_buffer_capacity : Z := AUDIO_SAMPLE_RATE * 2.

(** [val / 128.f] *)
Definition scale128 (val : Z) : Q := inject_Z val / 128.

Definition feedback_of (val : Z) : Q := (9 # 10) * scale128 val.
Definition length_of (val : Z) : Z :=
  uint32_of_float (inject_Z AUDIO_SAMPLE_RATE * scale128 val).
Definition freq_of (val : Z) : Q := 3000 * scale128 val + 100.

(** One [val = midi_cc_values[k]; if (midi_cc_values_prev[k] != val) ...]
    block of [processaudio_background_loop]: the cell is narrowed into
    [char val], the previous value is compared with [val], and on a
    difference [val] goes back into the previous value and on to the
    element. *)
Definition cc_slot (k : nat) (effect : Z -> call)
    (s : MULTICORE_DATA * list call) : MULTICORE_DATA * list call :=
  let '(d, calls) := s in
  let val := char_of (cell (midi_cc_values d) k) in
  if negb (cell (midi_cc_values_prev d) k =? val)%Z
  then (set_cc_values_prev d k (byte_of val), calls ++ [effect val])
  else s.

(** [processaudio_background_loop]: the bridge after the pass and the calls
    made during it. *)
Definition processaudio_background_loop (d : MULTICORE_DATA)
    : MULTICORE_DATA * list call :=
  let s := (d, []) in
  let s := cc_slot 4 (fun val => delay_modify_feedback (feedback_of val)) s in
  let s := cc_slot 5 (fun val => delay_modify_length (length_of val)) s in
  let s := cc_slot 6 (fun val => filter_modify_freq (freq_of val)) s in
  s.

End SampleRate.

(** The test of the pass on controller slot [k]: the previous value
    recorded for the slot differs from the value read from it. *)
Definition slot_changed (d : MULTICORE_DATA) (k : nat) : bool :=
  negb (cell (midi_cc_values_prev d) k =? char_of (cell (midi_cc_values d) k))%Z.

(** Controller slots 4, 5 and 6 hold MIDI data bytes, as both decoders
    leave them. *)
Definition monitored_slots_hold_data_bytes (d : MULTICORE_DATA) : Prop :=
  forall k, k = 4 \/ k = 5 \/ k = 6 -> is_data_byte (cell (midi_cc_values d) k).

(** A bridge whose controllers 4, 5 and 6 have all changed to 64. *)
Definition bridge_cc_changed : MULTICORE_DATA :=
  set_cc_values (set_cc_values (set_cc_values zeroed 4 64) 5 64) 6 64.


(** The argument of a call is within the range its element is given at
    setup: feedback in [0, 0.9], length in [0, AUDIO_SAMPLE_RATE] and so
    within the delay buffer, frequency in [100, 3100]. *)
Definition call_in_range (AUDIO_SAMPLE_RATE : Z) (c : call) : Prop :=
  match c with
  | delay_modify_feedback x => (0 <= x /\ x <= 9 # 10)%Q
  | delay_modify_length n =>
      (0 <= n <= AUDIO_SAMPLE_RATE)%Z /\ (n <= delay_buffer_capacity AUDIO_SAMPLE_RATE)%Z
  | filter_modify_freq f => (100 <= f /\ f <= 3100)%Q
  end.

(** *** The audio callback *)

(** [dst[i] = src[i]]; reading or writing past the end of a buffer is
    undefined. *)
Definition copy_sample (src dst : list Q) (i : nat) : option (list Q) :=
  x ← src !! i; _ ← dst !! i; Some (<[i := x]> dst).

(** The four channel pairs the callback reads and the four it writes. *)
Record channels := mk_channels {
  audiochannel_0_left : list Q;
  audiochannel_0_right : list Q;
  audiochannel_1_left : list Q;
  audiochannel_1_right : list Q;
  audiochannel_2_left : list Q;
  audiochannel_2_right : list Q;
  audiochannel_3_left : list Q;
  audiochannel_3_right : list Q
}.

(** The body of [for (int i = 0; i < AUDIO_BLOCK_SIZE; i++)]: the delay
    output goes to both sides of channel 0, channels 1 to 3 are copied from
    their inputs. *)
Definition route_sample (audio_temp2 : list Q) (inp : channels) (i : nat)
    (out : channels) : option channels :=
  l0 ← copy_sample audio_temp2 (audiochannel_0_left out) i;
  r0 ← copy_sample audio_temp2 (audiochannel_0_right out) i;
  l1 ← copy_sample (audiochannel_1_left inp) (audiochannel_1_left out) i;
  r1 ← copy_sample (audiochannel_1_right inp) (audiochannel_1_right out) i;
  l2 ← copy_sample (audiochannel_2_left inp) (audiochannel_2_left out) i;
  r2 ← copy_sample (audiochannel_2_right inp) (audiochannel_2_right out) i;
  l3 ← copy_sample (audiochannel_3_left inp) (audiochannel_3_left out) i;
  r3 ← copy_sample (audiochannel_3_right inp) (audiochannel_3_right out) i;
  Some (mk_channels l0 r0 l1 r1 l2 r2 l3 r3).

Section Callback.

(** [AUDIO_BLOCK_SIZE] comes from common/audio_system_config.h. *)
Variable AUDIO_BLOCK_SIZE : nat.

(** The filter and delay elements (biquad_filter.h, integer_delay_lpf.h) are
    not among the sources: [filter_read(&f, in, out, n)] and
    [delay_read(&d, in, out, n)] take the element, the input and the buffer
    they write, and return the element and the buffer after the block. *)
Variable BIQUAD_FILTER : Type.
Variable DELAY_LPF : Type.
Variable filter_read : BIQUAD_FILTER -> list Q -> list Q -> nat -> BIQUAD_FILTER * list Q.
Variable delay_read : DELAY_LPF -> list Q -> list Q -> nat -> DELAY_LPF * list Q.

(** [audio_temp2] after the filter and the delay, with the two elements.
    The two locals are handed over zeroed, as the two [clear_buffer] calls
    leave them. *)
Definition filter_then_delay (lp_filter : BIQUAD_FILTER) (audio_delay : DELAY_LPF)
    (audiochannel_0_left_in : list Q) : BIQUAD_FILTER * DELAY_LPF * list Q :=
  let audio_temp := replicate AUDIO_BLOCK_SIZE 0%Q in
  let audio_temp2 := replicate AUDIO_BLOCK_SIZE 0%Q in
  let '(lp_filter', audio_temp) :=
    filter_read lp_filter audiochannel_0_left_in audio_temp AUDIO_BLOCK_SIZE in
  let '(audio_delay', audio_temp2) :=
    delay_read audio_delay audio_temp audio_temp2 AUDIO_BLOCK_SIZE in
  (lp_filter', audio_delay', audio_temp2).

(** [processaudio_callback]: the elements and the output channels after the
    block. *)
Definition processaudio_callback (lp_filter : BIQUAD_FILTER) (audio_delay : DELAY_LPF)
    (inp out : channels) : option (BIQUAD_FILTER * DELAY_LPF * channels) :=
  let '(lp_filter', audio_delay', audio_temp2) :=
    filter_then_delay lp_filter audio_delay (audiochannel_0_left inp) in
  out' ← for_upto AUDIO_BLOCK_SIZE (route_sample audio_temp2 inp) out;
  Some (lp_filter', audio_delay', out').

End Callback.

(** Every buffer of the channels holds at least [n] samples. *)
Definition block_fits (n : nat) (c : channels) : Prop :=
  n <= length (audiochannel_0_left c) /\ n <= length (audiochannel_0_right c) /\
  n <= length (audiochannel_1_left c) /\ n <= length (audiochannel_1_right c) /\
  n <= length (audiochannel_2_left c) /\ n <= length (audiochannel_2_right c) /\
  n <= length (audiochannel_3_left c) /\ n <= length (audiochannel_3_right c).

(** The first [n] samples of [src] written over the start of [dst]. *)
Definition block_over (n : nat) (src dst : list Q) : list Q :=
  take n src ++ drop n dst.

(** A delay for the examples: the block is its input, unchanged; and a
    filter that halves its input. *)
Definition echo_read (e : unit) (inp out : list Q) (n : nat) : unit * list Q :=
  (e, take n inp ++ drop n out).
Definition halving_read (e : unit) (inp out : list Q) (n : nat) : unit * list Q :=
  (e, map (Qmult (1 # 2)) (take n inp) ++ drop n out).

(** Two-sample blocks; channel 0 carries 1, 1 on the left and 9, 9 on the
    right, channel [k] carries [k] on both sides; the output buffers are
    three samples long and hold 7. *)
Definition inputs_by_channel : channels :=
  mk_channels [1; 1]%Q [9; 9]%Q [1; 1]%Q [1; 1]%Q [2; 2]%Q [2; 2]%Q [3; 3]%Q [3; 3]%Q.
Definition outputs_of_sevens : channels :=
  mk_channels [7; 7; 7]%Q [7; 7; 7]%Q [7; 7; 7]%Q [7; 7; 7]%Q
              [7; 7; 7]%Q [7; 7; 7]%Q [7; 7; 7]%Q [7; 7; 7]%Q.

End Core2.

(** ** The MIDI decoder with static state (src/unnamed/part_000) *)
Module MidiArm.
Import Bridge.

(** [static uint8_t midi_status, midi_channel, midi_note_num, midi_byte_num] *)
Record decoder := mk_decoder {
  midi_status : Z;
  midi_channel : Z;
  midi_note_num : Z;
  midi_byte_num : Z
}.

(** The statics are initialised to zero. *)
Definition reset : decoder := mk_decoder 0 0 0 0.

Inductive level := EVENT_INFO | EVENT_WARN.

(** The statics, the bridge and the event log. *)
Record state := mk_state {
  dec : decoder;
  data : MULTICORE_DATA;
  log : list (level * string)
}.

Definition log_event (l : level) (msg : string) (s : state) : state :=
  mk_state (dec s) (data s) (log s ++ [(l, msg)]).

Definition with_data (f : MULTICORE_DATA -> MULTICORE_DATA) (s : state) : state :=
  mk_state (dec s) (f (data s)) (log s).

Definition with_note_num (val : Z) (s : state) : state :=
  mk_state (mk_decoder (midi_status (dec s)) (midi_channel (dec s)) val
                       (midi_byte_num (dec s)))
           (data s) (log s).

(** [midi_byte_num ++] on a [uint8_t]. *)
Definition next_byte (s : state) : state :=
  mk_state (mk_decoder (midi_status (dec s)) (midi_channel (dec s))
                       (midi_note_num (dec s))
                       ((midi_byte_num (dec s) + 1) mod 256))
           (data s) (log s).

(** The [switch (midi_status)] on a data byte [val]. *)
Definition data_byte (val : Z) (s : state) : state :=
  let byte_num := midi_byte_num (dec s) in
  if (midi_status (dec s) =? 0x80)%Z then
    if (byte_num =? 0)%Z
    then log_event EVENT_INFO "Received MIDI note-off message"
           (with_data (fun d => set_velocity d (Z.to_nat val) 0) s)
    else s
  else if (midi_status (dec s) =? 0x90)%Z then
    if (byte_num =? 0)%Z then with_note_num val s
    else if (byte_num =? 1)%Z
    then log_event EVENT_INFO "Received MIDI note-on message"
           (with_data (fun d => set_velocity d (Z.to_nat (midi_note_num (dec s))) val) s)
    else s
  else if (midi_status (dec s) =? 0xB0)%Z then
    if (byte_num =? 0)%Z then with_note_num val s
    else if (byte_num =? 1)%Z
    then log_event EVENT_INFO "Received MIDI CC message"
           (if (midi_note_num (dec s) =? 74)%Z
            then with_data (fun d => set_cc_values d (Z.to_nat (midi_channel (dec s))) val) s
            else s)
    else s
  else log_event EVENT_WARN "Unknown MIDI message" s.

(** The body of the [while (uart_available(...))] loop for the byte [val]
    read from the FIFO. *)
Definition rx_byte (s : state) (val : Z) : state :=
  if (Z.land val 0x80 =? 0x80)%Z
  then mk_state (mk_decoder (Z.land val 0xF0) (Z.land val 0x0F) 0 0) (data s) (log s)
  else next_byte (data_byte val s).

(** [midi_rx_callback_arm] on the bytes waiting in the UART FIFO. *)
Definition midi_rx_callback_arm (fifo : list Z) (s : state) : state :=
  fold_left rx_byte fifo s.

(** *** Vocabulary of the properties *)

(** A note-off data byte zeroes both the velocity and the previous velocity
    of its note slot. *)
Definition note_off_clears_both (s : state) (val : Z) : Prop :=
  midi_status (dec s) = 0x80%Z -> midi_byte_num (dec s) = 0%Z ->
  note_velocity (data (rx_byte s val)) (Z.to_nat val) = Some 0%Z /\
  note_velocity_prev (data (rx_byte s val)) (Z.to_nat val) = Some 0%Z.

(** Note 60 is on at velocity 100, the background pass has seen it, and the
    decoder has just read a note-off status byte. *)
Definition awaiting_note_off : state :=
  mk_state (mk_decoder 0x80 0 0 0)
           (set_velocity_prev (set_velocity zeroed 60 100) 60 100) [].

(** The event logged for a data byte under a status the decoder does not
    know. *)
Definition unknown_message : level * string := (EVENT_WARN, "Unknown MIDI message"%string).

(** The statuses the [switch] knows. *)
Definition known_status (st : Z) : Prop := st = 0x80%Z \/ st = 0x90%Z \/ st = 0xB0%Z.

(** A position at which a data byte writes nothing: 2 and above, and under
    note-off 1 and above. *)
Definition past_the_message (s : state) : Prop :=
  (2 <= midi_byte_num (dec s))%Z \/
  (midi_status (dec s) = 0x80%Z /\ 1 <= midi_byte_num (dec s))%Z.

(** The statics hold what the code can store in them from bytes: a channel
    0..15, a note or controller number 0..127, a byte position 0..255, and a
    status that is 0 or a command 0x80, 0x90, ..., 0xF0. *)
Definition decoder_in_range (c : decoder) : Prop :=
  (0 <= midi_channel c <= 15)%Z /\ (0 <= midi_note_num c <= 127)%Z /\
  (0 <= midi_byte_num c <= 255)%Z /\
  (midi_status c = 0%Z \/ (0x80 <= midi_status c <= 0xF0 /\ midi_status c mod 16 = 0)%Z).

End MidiArm.

(** ** The MIDI decoder with local state (Synth_core0/src/callback_midi_message.cpp) *)
Module Core0.
Import Bridge.

(** [uint8_t status, channel, note_num, command_num]: locals of the
    callback. *)
Record locals := mk_locals {
  status : Z;
  channel : Z;
  note_num : Z;
  command_num : Z
}.

(** [uint8_t status = 0; ... command_num = 0;] *)
Definition entry : locals := mk_locals 0 0 0 0.

(** The [switch (status)] on a data byte [val]. *)
Definition data_byte (val : Z) (s : locals * MULTICORE_DATA) : locals * MULTICORE_DATA :=
  let '(l, d) := s in
  if (status l =? 0x80)%Z then
    if (command_num l =? 0)%Z
    then (l, set_note_velocities d (Z.to_nat val) 0)
    else s
  else if (status l =? 0x90)%Z then
    if (command_num l =? 0)%Z
    then (mk_locals (status l) (channel l) val (command_num l), d)
    else if (command_num l =? 1)%Z
    then (l, set_note_velocities d (Z.to_nat (note_num l)) val)
    else s
  else if (status l =? 0xB0)%Z then
    if (command_num l =? 0)%Z
    then (mk_locals (status l) (channel l) val (command_num l), d)
    else if (command_num l =? 1)%Z
    then (l, set_cc_values d (Z.to_nat (note_num l)) val)
    else s
  else s.

(** The body of the [while (uart_available(...))] loop. *)
Definition rx_byte (s : locals * MULTICORE_DATA) (val : Z) : locals * MULTICORE_DATA :=
  if negb (Z.land val 0x80 =? 0)%Z
  then (mk_locals (Z.land val 0xF0) (Z.land val 0x0F) (note_num (fst s)) 0, snd s)
  else
    let '(l, d) := data_byte val s in
    (mk_locals (status l) (channel l) (note_num l) ((command_num l + 1) mod 256), d).

(** The loop of the callback from given locals. *)
Definition rx_loop (fifo : list Z) (s : locals * MULTICORE_DATA) : locals * MULTICORE_DATA :=
  fold_left rx_byte fifo s.

(** [midi_rx_callback_arm] on the bytes waiting in the UART FIFO: the locals
    start from [entry] and are gone when the callback returns. *)
Definition midi_rx_callback_arm (fifo : list Z) (d : MULTICORE_DATA) : MULTICORE_DATA :=
  snd (rx_loop fifo (entry, d)).

(** *** Vocabulary of the properties *)

(** The three bytes of a message delivered in two invocations, the first
    [k] bytes in the first one. *)
Definition split_delivery (k : nat) (st d0 d1 : Z) (d : MULTICORE_DATA) : MULTICORE_DATA :=
  midi_rx_callback_arm (drop k [st; d0; d1]) (midi_rx_callback_arm (take k [st; d0; d1]) d).


(** A bridge in which note 60 is on at velocity 100. *)
Definition bridge_note_60 : MULTICORE_DATA := set_note_velocities zeroed 60 100.

(** The two decoders at the same point of the same byte stream: same
    status and byte position, the same stored note number inside a note-on
    message, and the same velocities, in [midi_note] for the static-state
    decoder and in [midi_note_velocities] for this one. *)
Definition decoders_agree (a : MidiArm.state) (c : locals * MULTICORE_DATA) : Prop :=
  MidiArm.midi_status (MidiArm.dec a) = status (fst c) /\
  MidiArm.midi_byte_num (MidiArm.dec a) = command_num (fst c) /\
  (MidiArm.midi_status (MidiArm.dec a) = 0x90%Z ->
   MidiArm.midi_byte_num (MidiArm.dec a) <> 0%Z ->
   MidiArm.midi_note_num (MidiArm.dec a) = note_num (fst c)) /\
  map velocity (midi_note (MidiArm.data a)) = midi_note_velocities (snd c).

End Core0.

(** * Properties *)

(** ** Loops *)

Lemma do_while_ext {St : Type} (f g : St -> St) (c : St -> bool) fuel s :
  (forall x, f x = g x) -> do_while fuel f c s = do_while fuel g c s.
Proof.
  intros Hfg. revert s. induction fuel as [|fuel IH]; intros s; simpl; [done|].
  rewrite Hfg. destruct (c (g s)); [apply IH | done].
Qed.

(** A loop invariant for [for_each]: if every iteration keeps [P] and
    returns, so does the loop. *)
Lemma for_each_invariant {St : Type} (P : St -> Prop) body idx (s : St) :
  P s ->
  (forall i x, i ∈ idx -> P x -> exists x', body i x = Some x' /\ P x') ->
  exists s', for_each idx body s = Some s' /\ P s'.
Proof.
  revert s. induction idx as [|i idx IH]; intros s Hs Hbody; simpl.
  - eauto.
  - destruct (Hbody i s) as (x' & -> & Hx'); [left | done |]. simpl.
    apply IH; [done|]. intros j x Hj. apply Hbody. by right.
Qed.

(** An iteration that changes nothing leaves the whole loop without effect. *)
Lemma for_each_skip {St : Type} body idx (s : St) :
  (forall i, i ∈ idx -> body i s = Some s) -> for_each idx body s = Some s.
Proof.
  intros Hbody. induction idx as [|i idx IH]; simpl; [done|].
  rewrite Hbody by left. simpl. apply IH. intros j Hj. apply Hbody. by right.
Qed.

(** ** Core 1: the scanning loops *)
Section Scan.
Import Core1.

Variable p : SIMPLE_SYNTH -> bool.
Variable act : SIMPLE_SYNTH -> SIMPLE_SYNTH.

(** Where the scan stops, started at [k] on a bank of 16 voices. *)
Lemma scan_from fuel k (voices : list SIMPLE_SYNTH) :
  length voices = 16 -> k < 16 -> 16 - k <= fuel ->
  do_while fuel (scan_body p act) scan_cond (false, k, voices)
  = Some (match list_find (fun v => p v = true) (drop k voices) with
          | Some (j, v) => (true, S (k + j), <[k + j := act v]> voices)
          | None => (false, 16, voices)
          end).
Proof.
  intros Hlen. revert k. induction fuel as [|fuel IH]; intros k Hk Hfuel; [lia|].
  destruct (lookup_lt_is_Some_2 voices k) as [v Hv]; [lia|].
  rewrite (drop_S _ _ _ Hv). simpl. rewrite Hv.
  destruct (p v) eqn:Hp.
  - rewrite decide_True by done. simpl. by rewrite Nat.add_0_r.
  - rewrite decide_False by done. simpl.
    destruct (S k <? 16) eqn:Hlt.
    + apply Nat.ltb_lt in Hlt. rewrite IH by lia.
      destruct (list_find _ (drop (S k) voices)) as [[j w]|]; simpl; [|done].
      by rewrite Nat.add_succ_r.
    + apply Nat.ltb_ge in Hlt. assert (S k = 16) as -> by lia.
      rewrite drop_ge by lia. done.
Qed.

(** The scan always returns, and the bank it leaves is described by the
    first voice passing [p]. *)
Lemma scan_result (voices : list SIMPLE_SYNTH) :
  length voices = 16 ->
  exists voices',
    snd <$> do_while 16 (scan_body p act) scan_cond (false, 0, voices) = Some voices' /\
    length voices' = 16 /\
    (forall k v, first_match p voices k v -> voices' = <[k := act v]> voices) /\
    ((forall k v, voices !! k = Some v -> p v = false) -> voices' = voices) /\
    (forall k v, voices !! k = Some v -> p v = false -> voices' !! k = Some v).
Proof.
  intros Hlen. rewrite scan_from by (done || lia). rewrite drop_0.
  destruct (list_find _ voices) as [[j w]|] eqn:Hfind; simpl.
  - apply list_find_Some in Hfind as (Hj & Hw & Hbefore).
    eexists; split; [done|]. split; [by rewrite length_insert|].
    split; [|split].
    + intros k v (Hk & Hv & Hfirst).
      destruct (Nat.lt_trichotomy j k) as [Hlt|[->|Hlt]].
      * specialize (Hfirst j w Hlt Hj). congruence.
      * congruence.
      * exfalso. apply (Hbefore k v Hk Hlt). done.
    + intros Hnone. specialize (Hnone j w Hj). congruence.
    + intros k v Hk Hv. rewrite list_lookup_insert_ne; [done|].
      intros ->. congruence.
  - eexists; split; [done|]. split; [done|]. split; [|done].
    intros k v (Hk & Hv & _).
    apply list_find_None in Hfind. rewrite Forall_forall in Hfind.
    exfalso. apply (Hfind v); [|done]. apply list_elem_of_lookup. eauto.
Qed.

End Scan.

Section VoiceBank.
Import Bridge Core1.

Lemma note_off_body_scan i s :
  note_off_body i s = scan_body (assigned i) synth_stop_note s.
Proof. by destruct s as [[found indx] voices]. Qed.

Lemma note_on_body_scan i a s :
  note_on_body i a s = scan_body free (fun v => synth_play_note v i a) s.
Proof. by destruct s as [[found indx] voices]. Qed.

Lemma note_off_result i (voices : list SIMPLE_SYNTH) :
  length voices = 16 ->
  exists voices',
    note_off i voices = Some voices' /\ length voices' = 16 /\
    (forall k v, first_match (assigned i) voices k v ->
       voices' = <[k := synth_stop_note v]> voices) /\
    ((forall k v, voices !! k = Some v -> assigned i v = false) -> voices' = voices) /\
    (forall k v, voices !! k = Some v -> assigned i v = false -> voices' !! k = Some v).
Proof.
  intros Hlen. unfold note_off.
  rewrite (do_while_ext _ _ _ _ _ (note_off_body_scan i)). by apply scan_result.
Qed.

Lemma note_on_result i vel (voices : list SIMPLE_SYNTH) :
  length voices = 16 ->
  exists voices',
    note_on i vel voices = Some voices' /\ length voices' = 16 /\
    (forall k v, first_match free voices k v ->
       voices' = <[k := synth_play_note v i (inject_Z vel * (1 # 128))]> voices) /\
    ((forall k v, voices !! k = Some v -> free v = false) -> voices' = voices) /\
    (forall k v, voices !! k = Some v -> free v = false -> voices' !! k = Some v).
Proof.
  intros Hlen. unfold note_on.
  rewrite (do_while_ext _ _ _ _ _ (note_on_body_scan i _)).
  by apply (scan_result free (fun v => synth_play_note v i (inject_Z vel * (1 # 128)))).
Qed.

(** C2 (as the code has it): when the background pass sees the velocity of
    note [i] change to 0, it records the change and stops the first voice,
    in ascending index order, that is playing and assigned to note [i]; no
    other voice is changed, in particular no voice assigned to another note
    and no later voice assigned to [i]; if no voice matches, the bank is
    left as it was. *)
Theorem note_off_stops_first_match d (voices : list SIMPLE_SYNTH) i n :
  length voices = 16 ->
  midi_note d !! i = Some n ->
  velocity n = 0%Z ->
  velocity_prev n <> 0%Z ->
  exists voices',
    note_slot i (d, voices) = Some (set_velocity_prev d i 0, voices') /\
    (forall k v, first_match (assigned i) voices k v ->
       voices' = <[k := synth_stop_note v]> voices) /\
    ((forall k v, voices !! k = Some v -> assigned i v = false) -> voices' = voices) /\
    (forall k v, voices !! k = Some v -> note v <> i -> voices' !! k = Some v).
Proof.
  intros Hlen Hn Hvel Hprev.
  destruct (note_off_result i voices Hlen) as (voices' & Hoff & _ & Hfirst & Hnone & Hother).
  exists voices'. split; [|split; [done|split; [done|]]].
  - unfold note_slot. rewrite Hn, Hvel.
    destruct (Z.eqb_spec 0 (velocity_prev n)) as [Heq|_]; [congruence|].
    simpl. by rewrite Hoff.
  - intros k v Hk Hnote. apply Hother; [done|].
    unfold assigned. apply andb_false_iff. right. by apply Nat.eqb_neq.
Qed.

Lemma note_off_stops_first_match_witness :
  exists voices',
    note_slot 60 (bridge_note_off, bank_doubled)
      = Some (set_velocity_prev bridge_note_off 60 0, voices') /\
    (forall k v, first_match (assigned 60) bank_doubled k v ->
       voices' = <[k := synth_stop_note v]> bank_doubled) /\
    ((forall k v, bank_doubled !! k = Some v -> assigned 60 v = false) ->
       voices' = bank_doubled) /\
    (forall k v, bank_doubled !! k = Some v -> note v <> 60 -> voices' !! k = Some v).
Proof.
  apply (note_off_stops_first_match bridge_note_off bank_doubled 60 (mk_note 0 100));
    [reflexivity | reflexivity | reflexivity | simpl; lia].
Defined.

(** C2 as stated fails: with voices 0 and 1 both playing note 60, a
    note-off for 60 stops voice 0 only. *)
Lemma note_off_leaves_second_match : ~ stops_every_match 60 bank_doubled.
Proof.
  intros (voices' & Hoff & Hall).
  vm_compute in Hoff. injection Hoff as <-.
  specialize (Hall 1 (mk_synth true 60 (90 # 128) 0) eq_refl).
  vm_compute in Hall. discriminate Hall.
Qed.

(** C4: when the background pass sees the velocity of note [i] change to a
    non-zero value, it records the change and starts the first voice, in
    ascending index order, that is not playing, with note [i] and amplitude
    velocity/128; every playing voice is left as it was, and if all 16
    voices are playing the bank is unchanged (the note-on is dropped). *)
Theorem note_on_takes_first_free_voice d (voices : list SIMPLE_SYNTH) i n :
  length voices = 16 ->
  midi_note d !! i = Some n ->
  velocity n <> velocity_prev n ->
  velocity n <> 0%Z ->
  exists voices',
    note_slot i (d, voices) = Some (set_velocity_prev d i (velocity n), voices') /\
    (forall k v, first_match free voices k v ->
       voices' = <[k := synth_play_note v i (inject_Z (velocity n) * (1 # 128))]> voices /\
       exists w, voices' !! k = Some w /\ playing w = true /\ note w = i /\
                 (amplitude w == inject_Z (velocity n) / 128)%Q) /\
    (forall k v, voices !! k = Some v -> playing v = true -> voices' !! k = Some v) /\
    ((forall k v, voices !! k = Some v -> playing v = true) -> voices' = voices).
Proof.
  intros Hlen Hn Hchange Hvel.
  destruct (note_on_result i (velocity n) voices Hlen)
    as (voices' & Hon & _ & Hfirst & Hnone & Hother).
  exists voices'. split; [|split; [|split]].
  - unfold note_slot. rewrite Hn.
    destruct (Z.eqb_spec (velocity n) (velocity_prev n)) as [Heq|_]; [congruence|].
    destruct (Z.eqb_spec (velocity n) 0) as [Heq|_]; [congruence|].
    simpl. by rewrite Hon.
  - intros k v Hk. pose proof (Hfirst k v Hk) as ->. split; [done|].
    destruct Hk as (Hk & _ & _).
    eexists. split; [apply list_lookup_insert_eq; by eapply lookup_lt_Some|].
    simpl. split; [done|]. split; [done|].
    unfold Qdiv. apply Qmult_comp; reflexivity.
  - intros k v Hk Hplay. apply Hother; [done|]. unfold free. by rewrite Hplay.
  - intros Hall. apply Hnone. intros k v Hk. unfold free.
    by rewrite (Hall k v Hk).
Qed.

Lemma note_on_takes_first_free_voice_witness :
  exists voices',
    note_slot 60 (bridge_note_on, bank_one_note)
      = Some (set_velocity_prev bridge_note_on 60 100, voices') /\
    (forall k v, first_match free bank_one_note k v ->
       voices' = <[k := synth_play_note v 60 (inject_Z 100 * (1 # 128))]> bank_one_note /\
       exists w, voices' !! k = Some w /\ playing w = true /\ note w = 60 /\
                 (amplitude w == inject_Z 100 / 128)%Q) /\
    (forall k v, bank_one_note !! k = Some v -> playing v = true -> voices' !! k = Some v) /\
    ((forall k v, bank_one_note !! k = Some v -> playing v = true) ->
       voices' = bank_one_note).
Proof.
  apply (note_on_takes_first_free_voice bridge_note_on bank_one_note 60 (mk_note 100 0));
    [reflexivity | reflexivity | simpl; lia | simpl; lia].
Defined.

(** The seventeenth note of the spec's scenario: a note-on into a full bank
    changes no voice. *)
Example note_on_full_bank_dropped :
  note_slot 60 (bridge_note_on, bank_full)
  = Some (set_velocity_prev bridge_note_on 60 100, bank_full).
Proof. reflexivity. Qed.

(** *** Runs of the bank *)

Lemma first_match_dec p (voices : list SIMPLE_SYNTH) :
  (exists k v, first_match p voices k v) \/
  (forall k v, voices !! k = Some v -> p v = false).
Proof.
  destruct (list_find (fun v => p v = true) voices) as [[k v]|] eqn:Hfind.
  - left. exists k, v. apply list_find_Some in Hfind as (Hk & Hv & Hbefore).
    split; [done|]. split; [done|]. intros j w Hj Hw.
    destruct (p w) eqn:Hpw; [|done]. exfalso. by apply (Hbefore j w).
  - right. intros k v Hk. apply list_find_None in Hfind.
    rewrite Forall_forall in Hfind.
    destruct (p v) eqn:Hpv; [|done].
    exfalso. apply (Hfind v); [|done]. apply list_elem_of_lookup. eauto.
Qed.

Lemma sounding_insert (voices : list SIMPLE_SYNTH) k0 w n k :
  k0 < length voices ->
  sounding (<[k0 := w]> voices) n k <->
  (k = k0 /\ playing w = true /\ note w = n) \/ (k <> k0 /\ sounding voices n k).
Proof.
  intros Hk0. unfold sounding. destruct (decide (k = k0)) as [->|Hne].
  - rewrite list_lookup_insert_eq by done. split.
    + intros (v & [= <-] & Hplay & Hnote). by left.
    + intros [(_ & Hplay & Hnote)|[Hne _]]; [by exists w | done].
  - rewrite list_lookup_insert_ne by done. split.
    + intros Hs. by right.
    + intros [[Heq _]|[_ Hs]]; done.
Qed.

Lemma no_retrigger_spec d :
  no_retrigger d = true <->
  forall i n, midi_note d !! i = Some n ->
    velocity n = velocity_prev n \/ velocity n = 0%Z \/ velocity_prev n = 0%Z.
Proof.
  unfold no_retrigger. rewrite forallb_forall. split.
  - intros H i n Hn. specialize (H n).
    rewrite <- list_elem_of_In, list_elem_of_lookup in H.
    specialize (H (ex_intro _ i Hn)).
    rewrite !orb_true_iff, !Z.eqb_eq in H. tauto.
  - intros H n Hn. rewrite <- list_elem_of_In, list_elem_of_lookup in Hn.
    destruct Hn as [i Hi]. specialize (H i n Hi).
    rewrite !orb_true_iff, !Z.eqb_eq. tauto.
Qed.

Lemma midi_note_set_velocity_prev d i n v j :
  midi_note d !! i = Some n ->
  midi_note (set_velocity_prev d i v) !! j
  = if decide (i = j) then Some (mk_note (velocity n) v) else midi_note d !! j.
Proof.
  intros Hn. unfold set_velocity_prev. rewrite Hn. simpl.
  destruct (decide (i = j)) as [->|Hne].
  - apply list_lookup_insert_eq. by eapply lookup_lt_Some.
  - by apply list_lookup_insert_ne.
Qed.

Lemma midi_note_set_velocity d i v j :
  midi_note (set_velocity d i v) !! j
  = match midi_note d !! i with
    | Some n => if decide (i = j) then Some (mk_note v (velocity_prev n))
                else midi_note d !! j
    | None => midi_note d !! j
    end.
Proof.
  unfold set_velocity. destruct (midi_note d !! i) as [n|] eqn:Hn; [|done]. simpl.
  destruct (decide (i = j)) as [->|Hne].
  - apply list_lookup_insert_eq. by eapply lookup_lt_Some.
  - by apply list_lookup_insert_ne.
Qed.

Lemma length_set_velocity d i v :
  length (midi_note (set_velocity d i v)) = length (midi_note d).
Proof.
  unfold set_velocity. destruct (midi_note d !! i); [|done].
  simpl. apply length_insert.
Qed.

Lemma length_set_velocity_prev d i v :
  length (midi_note (set_velocity_prev d i v)) = length (midi_note d).
Proof.
  unfold set_velocity_prev. destruct (midi_note d !! i); [|done].
  simpl. apply length_insert.
Qed.

(** A store by the decoder keeps the invariant: it touches no previous
    velocity and no voice. *)
Lemma store_velocity_invariant d voices i v :
  bank_invariant (d, voices) -> bank_invariant (set_velocity d i v, voices).
Proof.
  intros (Hlen & Hnotes & Hone & Hquiet). unfold bank_invariant; simpl in *.
  split; [done|]. split; [by rewrite length_set_velocity|]. split; [done|].
  intros j m Hm Hprev. rewrite midi_note_set_velocity in Hm.
  destruct (midi_note d !! i) as [n|] eqn:Hn; [|by eapply Hquiet].
  destruct (decide (i = j)) as [->|Hne]; [|by eapply Hquiet].
  injection Hm as <-. simpl in Hprev. by eapply Hquiet.
Qed.

End VoiceBank.

(** *** Runs of the bank, for any voice element whose stop is immediate *)
Section VoiceBankRuns.
Import Bridge Core1.

Variable play : SIMPLE_SYNTH -> nat -> Q -> SIMPLE_SYNTH.
Variable stop : SIMPLE_SYNTH -> SIMPLE_SYNTH.

Lemma note_off_body_with_scan i s :
  note_off_body_with stop i s = scan_body (assigned i) stop s.
Proof. by destruct s as [[found indx] voices]. Qed.

Lemma note_on_body_with_scan i a s :
  note_on_body_with play i a s = scan_body free (fun v => play v i a) s.
Proof. by destruct s as [[found indx] voices]. Qed.

Lemma note_off_with_result i (voices : list SIMPLE_SYNTH) :
  length voices = 16 ->
  exists voices',
    note_off_with stop i voices = Some voices' /\ length voices' = 16 /\
    (forall k v, first_match (assigned i) voices k v ->
       voices' = <[k := stop v]> voices) /\
    ((forall k v, voices !! k = Some v -> assigned i v = false) -> voices' = voices) /\
    (forall k v, voices !! k = Some v -> assigned i v = false -> voices' !! k = Some v).
Proof.
  intros Hlen. unfold note_off_with.
  rewrite (do_while_ext _ _ _ _ _ (note_off_body_with_scan i)). by apply scan_result.
Qed.

Lemma note_on_with_result i vel (voices : list SIMPLE_SYNTH) :
  length voices = 16 ->
  exists voices',
    note_on_with play i vel voices = Some voices' /\ length voices' = 16 /\
    (forall k v, first_match free voices k v ->
       voices' = <[k := play v i (inject_Z vel * (1 # 128))]> voices) /\
    ((forall k v, voices !! k = Some v -> free v = false) -> voices' = voices) /\
    (forall k v, voices !! k = Some v -> free v = false -> voices' !! k = Some v).
Proof.
  intros Hlen. unfold note_on_with.
  rewrite (do_while_ext _ _ _ _ _ (note_on_body_with_scan i _)).
  by apply (scan_result free (fun v => play v i (inject_Z vel * (1 # 128)))).
Qed.

(** One slot of the background pass keeps the invariant, provided the slot
    shows no change between two non-zero velocities. *)
Lemma note_slot_invariant i s :
  stops_at_once stop -> stores_the_note play ->
  i < 128 -> bank_invariant s -> no_retrigger (fst s) = true ->
  exists s', note_slot_with play stop i s = Some s' /\
             bank_invariant s' /\ no_retrigger (fst s') = true.
Proof.
  destruct s as [d voices].
  intros stop_at_once play_stores_note Hi (Hlen & Hnotes & Hone & Hquiet) Hretr;
    simpl in *.
  destruct (lookup_lt_is_Some_2 (midi_note d) i) as [n Hn]; [lia|].
  unfold note_slot_with. rewrite Hn.
  destruct (Z.eqb_spec (velocity n) (velocity_prev n)) as [Heq|Hchange]; simpl.
  { eexists; split; [done|]. by repeat split. }
  assert (Hretr' : no_retrigger (set_velocity_prev d i (velocity n)) = true).
  { apply no_retrigger_spec. intros j m Hm.
    rewrite (midi_note_set_velocity_prev _ _ n) in Hm by done.
    destruct (decide (i = j)) as [->|Hne].
    - injection Hm as <-. by left.
    - rewrite no_retrigger_spec in Hretr. by eapply Hretr. }
  destruct (Z.eqb_spec (velocity n) 0) as [Hzero|Hnonzero].
  - (* note-off *)
    destruct (note_off_with_result i voices Hlen)
      as (voices' & -> & Hlen' & Hfirst & Hnone & _). simpl.
    eexists; split; [done|]. split; [|done].
    unfold bank_invariant; simpl.
    split; [done|]. split; [by rewrite length_set_velocity_prev|].
    destruct (first_match_dec (assigned i) voices) as [(k0 & v0 & Hk0)|Hno].
    + rewrite (Hfirst k0 v0 Hk0). destruct Hk0 as (Hk0 & Hv0 & _).
      assert (Hk0len : k0 < length voices) by by eapply lookup_lt_Some.
      assert (Hs0 : sounding voices i k0).
      { exists v0. unfold assigned in Hv0. apply andb_true_iff in Hv0 as [? ?%Nat.eqb_eq].
        done. }
      assert (Hsub : forall m k, sounding (<[k0 := stop v0]> voices) m k ->
                                 k <> k0 /\ sounding voices m k).
      { intros m k Hs. apply sounding_insert in Hs; [|done].
        destruct Hs as [(_ & Hplay & _)|Hs]; [|done].
        rewrite (stop_at_once v0) in Hplay. discriminate Hplay. }
      split.
      * intros m j k Hj Hk. apply Hsub in Hj as [_ Hj], Hk as [_ Hk].
        by eapply Hone.
      * intros j m Hm Hprev k Hs. apply Hsub in Hs as [Hne Hs].
        rewrite (midi_note_set_velocity_prev _ _ n) in Hm by done.
        destruct (decide (i = j)) as [->|Hij].
        -- apply Hne. by eapply Hone.
        -- by eapply Hquiet.
    + rewrite (Hnone Hno). split; [done|].
      intros j m Hm Hprev k Hs.
      rewrite (midi_note_set_velocity_prev _ _ n) in Hm by done.
      destruct (decide (i = j)) as [->|Hij]; [|by eapply Hquiet].
      destruct Hs as (v & Hv & Hplay & Hnote). specialize (Hno k v Hv).
      unfold assigned in Hno. rewrite Hplay, Hnote, Nat.eqb_refl in Hno. done.
  - (* note-on *)
    assert (Hprev0 : velocity_prev n = 0%Z).
    { rewrite no_retrigger_spec in Hretr. destruct (Hretr i n Hn) as [?|[?|?]]; done. }
    destruct (note_on_with_result i (velocity n) voices Hlen)
      as (voices' & -> & Hlen' & Hfirst & Hnone & _). simpl.
    eexists; split; [done|]. split; [|done].
    unfold bank_invariant; simpl.
    split; [done|]. split; [by rewrite length_set_velocity_prev|].
    destruct (first_match_dec free voices) as [(k0 & v0 & Hk0)|Hno].
    + rewrite (Hfirst k0 v0 Hk0). destruct Hk0 as (Hk0 & Hv0 & _).
      assert (Hk0len : k0 < length voices) by by eapply lookup_lt_Some.
      set (w := play v0 i _).
      assert (Hcases : forall m k, sounding (<[k0 := w]> voices) m k ->
                (k = k0 /\ m = i) \/ (k <> k0 /\ sounding voices m k)).
      { intros m k Hs. apply sounding_insert in Hs; [|done].
        destruct Hs as [(-> & _ & Hnote)|Hs]; [left | by right].
        subst w. rewrite play_stores_note in Hnote. done. }
      split.
      * intros m j k Hj Hk.
        apply Hcases in Hj as [[-> ->]|[Hj1 Hj]], Hk as [[-> Hm]|[Hk1 Hk]].
        -- done.
        -- exfalso. exact (Hquiet i n Hn Hprev0 k Hk).
        -- subst m. exfalso. exact (Hquiet i n Hn Hprev0 j Hj).
        -- by eapply Hone.
      * intros j m Hm Hprev k Hs.
        rewrite (midi_note_set_velocity_prev _ _ n) in Hm by done.
        destruct (decide (i = j)) as [->|Hij].
        -- injection Hm as <-. simpl in Hprev. done.
        -- apply Hcases in Hs as [[_ ->]|[_ Hs]]; [done|]. by eapply Hquiet.
    + rewrite (Hnone Hno). split; [done|].
      intros j m Hm Hprev k Hs.
      rewrite (midi_note_set_velocity_prev _ _ n) in Hm by done.
      destruct (decide (i = j)) as [->|Hij]; [|by eapply Hquiet].
      injection Hm as <-. simpl in Hprev. done.
Qed.

(** The background pass returns and keeps the invariant. *)
Lemma background_loop_invariant s :
  stops_at_once stop -> stores_the_note play ->
  bank_invariant s -> no_retrigger (fst s) = true ->
  exists s', background_loop_with play stop s = Some s' /\ bank_invariant s'.
Proof.
  intros Hstop Hplay Hinv Hretr.
  destruct (for_each_invariant
              (fun x => bank_invariant x /\ no_retrigger (fst x) = true)
              (note_slot_with play stop) (seq 0 128) s) as (s' & Hrun & Hs' & _).
  - done.
  - intros i x Hi [Hx Hrx]. apply elem_of_seq in Hi.
    destruct (note_slot_invariant i x) as (x' & ? & ? & ?);
      [done | done | lia | done | done |].
    eauto.
  - eauto.
Qed.

Lemma run_invariant es s :
  stops_at_once stop -> stores_the_note play ->
  bank_invariant s -> retrigger_free_with play stop es s = true ->
  exists s', run_with play stop es s = Some s' /\ bank_invariant s'.
Proof.
  intros Hstop Hplay. revert s.
  induction es as [|e es IH]; intros s Hinv Hfree; simpl in *.
  - eauto.
  - apply andb_true_iff in Hfree as [He Hfree]. destruct e as [i v|]; simpl in *.
    + apply IH; [|done]. destruct s. by apply store_velocity_invariant.
    + destruct (background_loop_invariant s Hstop Hplay Hinv He) as (s' & Hs' & Hinv').
      rewrite Hs' in *. simpl. by apply IH.
Qed.

End VoiceBankRuns.

Section VoiceBankClaims.
Import Bridge Core1.

Lemma initial_invariant : bank_invariant initial.
Proof.
  unfold bank_invariant, initial; simpl. split; [done|]. split; [done|]. split.
  - intros n j k (v & Hv & Hplay & _).
    apply list_elem_of_lookup_2, elem_of_replicate in Hv as [-> _]. discriminate.
  - intros i n _ _ k (v & Hv & Hplay & _).
    apply list_elem_of_lookup_2, elem_of_replicate in Hv as [-> _]. discriminate.
Qed.

(** The background loop of the source is the loop over any voice element,
    taken at [synth_play_note] and [synth_stop_note]. *)
Lemma note_slot_with_spec i s :
  note_slot_with synth_play_note synth_stop_note i s = note_slot i s.
Proof. reflexivity. Qed.

Lemma run_with_spec es s :
  run_with synth_play_note synth_stop_note es s = run es s.
Proof.
  revert s. induction es as [|e es IH]; intros s; simpl; [done|].
  destruct e as [i v|]; simpl; [apply IH|].
  change (background_loop_with synth_play_note synth_stop_note s)
    with (processaudio_background_loop s).
  destruct (processaudio_background_loop s) as [s'|]; simpl; [apply IH | done].
Qed.

Lemma retrigger_free_with_spec es s :
  retrigger_free_with synth_play_note synth_stop_note es s = retrigger_free es s.
Proof.
  revert s. induction es as [|e es IH]; intros s; simpl; [done|].
  destruct e as [i v|]; simpl; [apply IH|].
  change (background_loop_with synth_play_note synth_stop_note s)
    with (processaudio_background_loop s).
  destruct (processaudio_background_loop s) as [s'|]; [by rewrite IH | done].
Qed.

(** C3 (as the code has it): take a voice element whose stop clears
    [playing] at once and whose start stores the note number, as
    [synth_stop_note] and [synth_play_note] do.  Then every run from the
    initial all-silent state in which every background pass starts with each
    note slot either unchanged, or at velocity 0, or at previous velocity 0
    (so that no pass sees a slot go from one non-zero velocity to another)
    returns a state, and in that state at most one voice is playing with a
    given assigned note.  The loop of the source is the instance
    [run_with synth_play_note synth_stop_note = run]. *)
Theorem one_voice_per_note_without_retrigger play stop es :
  stops_at_once stop ->
  stores_the_note play ->
  retrigger_free_with play stop es initial = true ->
  exists s, run_with play stop es initial = Some s /\ one_voice_per_note (snd s).
Proof.
  intros Hstop Hplay Hfree.
  destruct (run_invariant play stop es initial Hstop Hplay initial_invariant Hfree)
    as (s & Hrun & Hinv).
  exists s. split; [done|]. apply Hinv.
Qed.

Lemma one_voice_per_note_without_retrigger_witness :
  stops_at_once synth_stop_note /\ stores_the_note synth_play_note /\
  retrigger_free note_played_twice initial = true /\
  exists s, run note_played_twice initial = Some s /\ one_voice_per_note (snd s).
Proof.
  assert (Hstop : stops_at_once synth_stop_note) by (intros v; reflexivity).
  assert (Hplay : stores_the_note synth_play_note) by (intros v n a; reflexivity).
  assert (Hfree : retrigger_free_with synth_play_note synth_stop_note
                    note_played_twice initial = true) by (vm_compute; reflexivity).
  split; [exact Hstop|]. split; [exact Hplay|].
  split; [by rewrite <- retrigger_free_with_spec|].
  rewrite <- run_with_spec.
  apply (one_voice_per_note_without_retrigger synth_play_note synth_stop_note
           note_played_twice Hstop Hplay Hfree).
Defined.

(** The stop has to be immediate.  With a release ramp that keeps [playing]
    set, the same run, which shows no pass a change between two non-zero
    velocities, ends with voices 0 and 2 both playing note 60: the note-off
    leaves voice 0 playing, and the next note-on takes voice 2. *)
Lemma release_ramp_doubles_a_note :
  retrigger_free_with synth_play_note synth_stop_note_ramping note_played_twice initial
    = true /\
  exists s,
    run_with synth_play_note synth_stop_note_ramping note_played_twice initial = Some s /\
    sounding (snd s) 60 0 /\ sounding (snd s) 60 2 /\ ~ one_voice_per_note (snd s).
Proof.
  split; [vm_compute; reflexivity|].
  eexists. split; [vm_compute; reflexivity|].
  assert (H0 : forall (voices : list SIMPLE_SYNTH) k v,
             voices !! k = Some v -> playing v = true -> note v = 60 ->
             sounding voices 60 k).
  { intros voices k v Hv Hp Hn. by exists v. }
  split; [by eapply H0|]. split; [by eapply H0|].
  intros Hone. assert (0 = 2) as Habs; [|discriminate Habs].
  apply (Hone 60); by eapply H0.
Qed.

(** C3 as stated fails: note 60 switched on at velocity 100 and, with no
    note-off in between, again at velocity 90 leaves voices 0 and 1 both
    playing note 60. *)
Lemma retrigger_doubles_a_note : ~ always_one_voice_per_note.
Proof.
  intros Hall.
  specialize (Hall [store_velocity 60 100; background_pass;
                    store_velocity 60 90; background_pass]).
  assert (Hrun : exists d,
             run [store_velocity 60 100; background_pass;
                  store_velocity 60 90; background_pass] initial
             = Some (d, bank_doubled)).
  { eexists. vm_compute. reflexivity. }
  destruct Hrun as [d Hrun]. specialize (Hall _ Hrun 60 0 1). simpl in Hall.
  assert (0 = 1) as Habs; [|discriminate Habs].
  apply Hall; eexists; (split; [reflexivity|done]).
Qed.

End VoiceBankClaims.

(** ** Core 1: the audio callback *)
Section AudioCallback.
Import Core1.

Variable AUDIO_BLOCK_SIZE : nat.
Variable synth_read : SIMPLE_SYNTH -> nat -> SIMPLE_SYNTH * list Q.

(** Whatever the voices generate, the callback leaves in each output buffer
    the buffer's own previous samples scaled by 0.25: the accumulator does
    not reach them. *)
Lemma callback_scales_the_output_buffers s s' :
  processaudio_callback AUDIO_BLOCK_SIZE synth_read s = Some s' ->
  audiochannel_0_left_out s'
    = gain_buffer (audiochannel_0_left_out s) (1 # 4) AUDIO_BLOCK_SIZE /\
  audiochannel_0_right_out s'
    = gain_buffer (audiochannel_0_right_out s) (1 # 4) AUDIO_BLOCK_SIZE.
Proof.
  unfold processaudio_callback.
  destruct (mix_voices _ _ _) as [[voices accum]|]; simpl; [|discriminate].
  intros [= <-]. done.
Qed.

(** The callback returns on a bank of 16 voices. *)
Lemma callback_returns s :
  length (synth_voices s) = 16 ->
  is_Some (processaudio_callback AUDIO_BLOCK_SIZE synth_read s).
Proof.
  intros Hlen. unfold processaudio_callback, mix_voices, for_upto.
  destruct (for_each_invariant
              (fun x : list SIMPLE_SYNTH * list Q => length (fst x) = 16)
              (mix_voice AUDIO_BLOCK_SIZE synth_read) (seq 0 16)
              (synth_voices s,
               clear_buffer (replicate AUDIO_BLOCK_SIZE 0%Q) AUDIO_BLOCK_SIZE))
    as (x & -> & _); [done | | by destruct x].
  intros i [voices accum] Hi Hx. apply elem_of_seq in Hi. simpl in Hx |- *.
  destruct (lookup_lt_is_Some_2 voices i) as [v Hv]; [lia|].
  rewrite Hv. destruct (synth_read v AUDIO_BLOCK_SIZE) as [v' block].
  eexists; split; [done|]. simpl. by rewrite length_insert.
Qed.

End AudioCallback.

Section AudioCallbackAtAnInput.
Import Core1.

(** C1, evaluated on the code: with a block of 32 samples, voice 0 playing at
    amplitude 1 and the output buffers holding silence, the accumulated mix
    is 1 at every sample, so 0.25 times the mix is 0.25; the callback leaves
    0.25 * 0 = 0 at every sample of both output buffers. *)
Theorem callback_discards_the_mix :
  let silence := replicate 32 0%Q in
  mix_voices 32 flat_read bank_one_note
    = Some (bank_one_note, replicate 32 1%Q) /\
  processaudio_callback 32 flat_read (mk_audio bank_one_note silence silence)
    = Some (mk_audio bank_one_note (replicate 32 (0 # 4)) (replicate 32 (0 # 4))) /\
  (0 # 4 == 0)%Q /\
  ~ (0 # 4 == (1 # 4) * 1)%Q.
Proof.
  intros silence.
  split; [vm_compute; reflexivity|]. split; [vm_compute; reflexivity|].
  split; [reflexivity|]. intros Heq. vm_compute in Heq. discriminate Heq.
Qed.

End AudioCallbackAtAnInput.

(** ** Core 2: the background pass over the controllers *)
Section Controllers.
Import Bridge Core2.

Variable AUDIO_SAMPLE_RATE : Z.

Lemma cell_insert_ne (a : list Z) i j v : i <> j -> cell (<[i := v]> a) j = cell a j.
Proof. intros Hne. unfold cell. by rewrite list_lookup_insert_ne. Qed.

Lemma char_of_data_byte v : is_data_byte v -> char_of v = v.
Proof.
  unfold is_data_byte, char_of. intros Hv. rewrite Z.mod_small by lia.
  destruct (Z.ltb_spec v 128); [done | lia].
Qed.

Lemma byte_of_data_byte v : is_data_byte v -> byte_of v = v.
Proof. unfold is_data_byte, byte_of. intros Hv. apply Z.mod_small. lia. Qed.

Lemma cc_slot_eq k effect d calls :
  cc_slot k effect (d, calls)
  = (if slot_changed d k
     then set_cc_values_prev d k (byte_of (char_of (cell (midi_cc_values d) k)))
     else d,
     calls ++ (if slot_changed d k
               then [effect (char_of (cell (midi_cc_values d) k))] else [])).
Proof.
  unfold cc_slot, slot_changed. destruct (negb _); [done|]. by rewrite app_nil_r.
Qed.

Lemma cc_values_after d i v (b : bool) :
  midi_cc_values (if b then set_cc_values_prev d i v else d) = midi_cc_values d.
Proof. by destruct b. Qed.

Lemma slot_changed_after d i v (b : bool) j :
  i <> j ->
  slot_changed (if b then set_cc_values_prev d i v else d) j = slot_changed d j.
Proof.
  intros Hne. destruct b; [|done]. unfold slot_changed; simpl.
  by rewrite cell_insert_ne.
Qed.

(** The calls of a pass, in order: one per changed slot among 4, 5 and 6. *)
Lemma background_loop_calls d :
  snd (processaudio_background_loop AUDIO_SAMPLE_RATE d)
  = (if slot_changed d 4
     then [delay_modify_feedback (feedback_of (char_of (cell (midi_cc_values d) 4)))]
     else [])
    ++ (if slot_changed d 5
        then [delay_modify_length
                (length_of AUDIO_SAMPLE_RATE (char_of (cell (midi_cc_values d) 5)))]
        else [])
    ++ (if slot_changed d 6
        then [filter_modify_freq (freq_of (char_of (cell (midi_cc_values d) 6)))]
        else []).
Proof.
  unfold processaudio_background_loop. rewrite !cc_slot_eq. simpl.
  rewrite !cc_values_after, !slot_changed_after by lia.
  by rewrite <- app_assoc.
Qed.

Lemma feedback_of_range v :
  (0 <= v <= 127)%Z -> (0 <= feedback_of v /\ feedback_of v <= 9 # 10)%Q.
Proof.
  intros Hv. unfold feedback_of, scale128, Qdiv, Qmult, Qinv, Qle, inject_Z; simpl.
  lia.
Qed.

Lemma freq_of_range v :
  (0 <= v <= 127)%Z -> (100 <= freq_of v /\ freq_of v <= 3100)%Q.
Proof.
  intros Hv.
  unfold freq_of, scale128, Qdiv, Qmult, Qplus, Qinv, Qle, inject_Z; simpl.
  lia.
Qed.

(** The length is the floor of [AUDIO_SAMPLE_RATE * (v / 128)]. *)
Lemma length_of_floor v :
  (0 <= AUDIO_SAMPLE_RATE)%Z -> (0 <= v <= 127)%Z ->
  length_of AUDIO_SAMPLE_RATE v
    = Qfloor (inject_Z AUDIO_SAMPLE_RATE * (inject_Z v / 128)) /\
  length_of AUDIO_SAMPLE_RATE v = (AUDIO_SAMPLE_RATE * v / 128)%Z.
Proof.
  intros Hsr Hv.
  unfold length_of, uint32_of_float, scale128, Qfloor, Qdiv, Qmult, Qinv, inject_Z;
    simpl.
  rewrite Z.mul_1_r. split; apply Z.quot_div_nonneg; lia.
Qed.

Lemma length_of_range v :
  (0 <= AUDIO_SAMPLE_RATE)%Z -> (0 <= v <= 127)%Z ->
  (0 <= length_of AUDIO_SAMPLE_RATE v <= AUDIO_SAMPLE_RATE)%Z /\
  (length_of AUDIO_SAMPLE_RATE v <= delay_buffer_capacity AUDIO_SAMPLE_RATE)%Z.
Proof.
  intros Hsr Hv. destruct (length_of_floor v Hsr Hv) as [_ ->].
  unfold delay_buffer_capacity.
  assert (0 <= AUDIO_SAMPLE_RATE * v / 128)%Z by (apply Z.div_pos; nia).
  assert (AUDIO_SAMPLE_RATE * v / 128 <= AUDIO_SAMPLE_RATE)%Z
    by (apply Z.div_le_upper_bound; nia).
  lia.
Qed.

(** C7: for a controller byte [v] in 0..127 that the pass finds changed,
    slot 4 gives a [delay_modify_feedback] call with 0.9*(v/128), within
    [0, 0.9]; slot 5 gives a [delay_modify_length] call with
    floor(AUDIO_SAMPLE_RATE*(v/128)) samples, within [0, AUDIO_SAMPLE_RATE]
    and so within the delay buffer capacity AUDIO_SAMPLE_RATE*2; slot 6
    gives a [filter_modify_freq] call with 3000*(v/128)+100, within
    [100, 3100]. *)
Theorem changed_controllers_are_scaled d v :
  (0 <= AUDIO_SAMPLE_RATE)%Z ->
  (0 <= v <= 127)%Z ->
  let calls := snd (processaudio_background_loop AUDIO_SAMPLE_RATE d) in
  (cell (midi_cc_values d) 4 = v -> cell (midi_cc_values_prev d) 4 <> v ->
     In (delay_modify_feedback ((9 # 10) * (inject_Z v / 128))) calls /\
     (0 <= (9 # 10) * (inject_Z v / 128) /\ (9 # 10) * (inject_Z v / 128) <= 9 # 10)%Q) /\
  (cell (midi_cc_values d) 5 = v -> cell (midi_cc_values_prev d) 5 <> v ->
     In (delay_modify_length (Qfloor (inject_Z AUDIO_SAMPLE_RATE * (inject_Z v / 128)))) calls /\
     (0 <= Qfloor (inject_Z AUDIO_SAMPLE_RATE * (inject_Z v / 128)) <= AUDIO_SAMPLE_RATE)%Z /\
     (Qfloor (inject_Z AUDIO_SAMPLE_RATE * (inject_Z v / 128))
        <= delay_buffer_capacity AUDIO_SAMPLE_RATE)%Z) /\
  (cell (midi_cc_values d) 6 = v -> cell (midi_cc_values_prev d) 6 <> v ->
     In (filter_modify_freq (3000 * (inject_Z v / 128) + 100)) calls /\
     (100 <= 3000 * (inject_Z v / 128) + 100 /\ 3000 * (inject_Z v / 128) + 100 <= 3100)%Q).
Proof.
  intros Hsr Hv calls. subst calls. rewrite background_loop_calls.
  unfold slot_changed.
  split; [|split]; intros Hcur Hprev; rewrite Hcur;
    rewrite (char_of_data_byte v) by done;
    apply Z.eqb_neq in Hprev; rewrite Hprev; simpl negb; cbv iota.
  - split; [|by apply feedback_of_range]. by left.
  - destruct (length_of_floor v Hsr Hv) as [<- _].
    split; [|by apply length_of_range].
    apply in_or_app. right. by left.
  - split; [|by apply freq_of_range].
    apply in_or_app. right. apply in_or_app. right. by left.
Qed.

End Controllers.

Section ControllerExamples.
Import Bridge Core2.

Lemma changed_controllers_are_scaled_witness :
  (0 <= 48000)%Z /\ (0 <= 64 <= 127)%Z /\
  let calls := snd (processaudio_background_loop 48000 bridge_cc_changed) in
  In (delay_modify_feedback ((9 # 10) * (inject_Z 64 / 128))) calls /\
  In (delay_modify_length (Qfloor (inject_Z 48000 * (inject_Z 64 / 128)))) calls /\
  In (filter_modify_freq (3000 * (inject_Z 64 / 128) + 100)) calls.
Proof.
  assert (H0 : (0 <= 48000)%Z) by lia.
  assert (H1 : (0 <= 64 <= 127)%Z) by lia.
  split; [exact H0|]. split; [exact H1|].
  destruct (changed_controllers_are_scaled 48000 bridge_cc_changed 64 H0 H1)
    as (H4 & H5 & H6).
  split; [|split].
  - apply H4; [reflexivity | vm_compute; discriminate].
  - apply H5; [reflexivity | vm_compute; discriminate].
  - apply H6; [reflexivity | vm_compute; discriminate].
Defined.

(** At 48 kHz the three calls for the value 64 are feedback 0.45, length
    24000 samples and frequency 1600 Hz. *)
Example calls_at_48000 :
  snd (processaudio_background_loop 48000 bridge_cc_changed)
  = [delay_modify_feedback (576 # 1280); delay_modify_length 24000;
     filter_modify_freq (204800 # 128)].
Proof. reflexivity. Qed.

(** A cell above 127 is read through [char val] as a negative value: slot 4
    holding 200 is passed on as -56, and the byte 200 goes back into the
    previous value. *)
Example cell_above_127_is_narrowed :
  processaudio_background_loop 48000 (set_cc_values zeroed 4 200)
  = (set_cc_values_prev (set_cc_values zeroed 4 200) 4 200,
     [delay_modify_feedback (feedback_of (-56))]).
Proof. reflexivity. Qed.

End ControllerExamples.

(** ** A background pass that finds no change *)
Section NoChange.
Import Bridge.

Lemma cc_slot_unchanged k effect d calls :
  is_data_byte (cell (midi_cc_values d) k) ->
  cell (midi_cc_values d) k = cell (midi_cc_values_prev d) k ->
  Core2.cc_slot k effect (d, calls) = (d, calls).
Proof.
  intros Hbyte Heq. unfold Core2.cc_slot.
  by rewrite (char_of_data_byte _ Hbyte), Heq, Z.eqb_refl.
Qed.

Lemma note_slot_unchanged d voices i n :
  midi_note d !! i = Some n -> velocity n = velocity_prev n ->
  Core1.note_slot i (d, voices) = Some (d, voices).
Proof.
  intros Hn Heq. unfold Core1.note_slot. rewrite Hn, Heq, Z.eqb_refl. done.
Qed.

(** C8: if every note slot has its velocity equal to its previous velocity
    and controller slots 4, 5 and 6 hold MIDI data bytes (0..127) equal to
    their previous values, the pass of core 1 returns the bridge and all 16
    voices as they were, and the pass of core 2 returns the bridge as it was
    and calls no entry point of the delay or the filter.  The data bytes are
    what both decoders store; a cell of 128..255 is narrowed by [char val]
    and no longer equals its previous value in the comparison. *)
Theorem background_pass_without_change AUDIO_SAMPLE_RATE d
    (voices : list Core1.SIMPLE_SYNTH) :
  length (midi_note d) = 128 ->
  (forall i n, midi_note d !! i = Some n -> velocity n = velocity_prev n) ->
  Core2.monitored_slots_hold_data_bytes d ->
  (forall k, k = 4 \/ k = 5 \/ k = 6 ->
     cell (midi_cc_values d) k = cell (midi_cc_values_prev d) k) ->
  Core1.processaudio_background_loop (d, voices) = Some (d, voices) /\
  Core2.processaudio_background_loop AUDIO_SAMPLE_RATE d = (d, []).
Proof.
  intros Hlen Hnotes Hbytes Hcc. split.
  - apply for_each_skip. intros i Hi. apply elem_of_seq in Hi.
    destruct (lookup_lt_is_Some_2 (midi_note d) i) as [n Hn]; [lia|].
    apply (note_slot_unchanged d voices i n Hn). by eapply Hnotes.
  - unfold Core2.processaudio_background_loop.
    rewrite !cc_slot_unchanged by ((apply Hbytes; tauto) || (apply Hcc; tauto)).
    reflexivity.
Qed.

Lemma background_pass_without_change_witness :
  Core1.processaudio_background_loop (zeroed, Core1.bank_doubled)
    = Some (zeroed, Core1.bank_doubled) /\
  Core2.processaudio_background_loop 48000 zeroed = (zeroed, []).
Proof.
  apply (background_pass_without_change 48000 zeroed Core1.bank_doubled).
  - reflexivity.
  - intros i n Hn. apply list_elem_of_lookup_2, elem_of_replicate in Hn as [-> _].
    reflexivity.
  - intros k [-> | [-> | ->]]; vm_compute; split; discriminate.
  - intros k [-> | [-> | ->]]; reflexivity.
Defined.

End NoChange.

(** ** MIDI bytes *)
Section Bytes.
Import Bridge.

(** A property of bytes checked on all 256 of them. *)
Lemma byte_forall (P : Z -> bool) :
  forallb P (map Z.of_nat (seq 0 256)) = true ->
  forall x, (0 <= x < 256)%Z -> P x = true.
Proof.
  intros Hall x Hx. rewrite forallb_forall in Hall. apply Hall.
  rewrite <- (Z2Nat.id x) by lia. apply in_map, in_seq. lia.
Qed.

Lemma data_byte_high_bit val : is_data_byte val -> Z.land val 0x80 = 0%Z.
Proof.
  intros Hval. unfold is_data_byte in Hval.
  pose proof (byte_forall
    (fun x => implb (x <=? 0x7F)%Z (Z.land x 0x80 =? 0)%Z) eq_refl val) as H.
  simpl in H. destruct (Z.leb_spec val 0x7F); [|lia].
  apply Z.eqb_eq, H. lia.
Qed.

Lemma status_byte_high_bit val : is_status_byte val -> Z.land val 0x80 = 0x80%Z.
Proof.
  intros Hval. unfold is_status_byte in Hval.
  pose proof (byte_forall
    (fun x => implb (0x80 <=? x)%Z (Z.land x 0x80 =? 0x80)%Z) eq_refl val) as H.
  simpl in H. destruct (Z.leb_spec 0x80 val); [|lia].
  apply Z.eqb_eq, H. lia.
Qed.

Lemma control_change_status st :
  (0xB0 <= st <= 0xBF)%Z -> Z.land st 0xF0 = 0xB0%Z /\ (0 <= Z.land st 0x0F <= 15)%Z.
Proof.
  intros Hst.
  pose proof (byte_forall
    (fun x => implb ((0xB0 <=? x) && (x <=? 0xBF))%Z
                    ((Z.land x 0xF0 =? 0xB0) && (0 <=? Z.land x 0x0F)
                     && (Z.land x 0x0F <=? 15))%Z) eq_refl st) as H.
  simpl in H.
  destruct (Z.leb_spec 0xB0 st); [|lia]. destruct (Z.leb_spec st 0xBF); [|lia].
  simpl in H. specialize (H ltac:(lia)).
  rewrite !andb_true_iff, Z.eqb_eq, !Z.leb_le in H. lia.
Qed.

End Bytes.

(** ** The bridge under the decoders' stores *)
Section BridgeStores.
Import Bridge.

Lemma note_velocity_set_velocity d i v :
  i < length (midi_note d) -> note_velocity (set_velocity d i v) i = Some v.
Proof.
  intros Hi. destruct (lookup_lt_is_Some_2 (midi_note d) i Hi) as [n Hn].
  unfold note_velocity. rewrite midi_note_set_velocity, Hn.
  by rewrite decide_True.
Qed.

Lemma note_velocity_set_velocity_ne d i v k :
  i <> k -> note_velocity (set_velocity d i v) k = note_velocity d k.
Proof.
  intros Hne. unfold note_velocity. rewrite midi_note_set_velocity.
  destruct (midi_note d !! i) as [n|]; [|done]. by rewrite decide_False.
Qed.

Lemma note_velocity_prev_set_velocity d i v k :
  note_velocity_prev (set_velocity d i v) k = note_velocity_prev d k.
Proof.
  unfold note_velocity_prev. rewrite midi_note_set_velocity.
  destruct (midi_note d !! i) as [n|] eqn:Hn; [|done].
  destruct (decide (i = k)) as [<-|]; [|done]. by rewrite Hn.
Qed.

End BridgeStores.

(** ** The decoder with static state *)
Section StaticDecoder.
Import Bridge MidiArm.

Lemma rx_status_byte s st :
  is_status_byte st ->
  rx_byte s st
  = mk_state (mk_decoder (Z.land st 0xF0) (Z.land st 0x0F) 0 0) (data s) (log s).
Proof.
  intros Hst. unfold rx_byte. by rewrite (status_byte_high_bit st Hst).
Qed.

Lemma rx_data_byte s val :
  is_data_byte val -> rx_byte s val = next_byte (data_byte val s).
Proof.
  intros Hval. unfold rx_byte. by rewrite (data_byte_high_bit val Hval).
Qed.

(** Static-state decoder: a data byte [val] read at byte position 0 under a
    note-off status sets the velocity of note [val] to 0 and changes nothing
    else in the bridge; every previous velocity, that of note [val]
    included, is as it was. *)
Lemma static_note_off_clears_velocity s val :
  is_data_byte val ->
  Z.to_nat val < length (midi_note (data s)) ->
  midi_status (dec s) = 0x80%Z ->
  midi_byte_num (dec s) = 0%Z ->
  data (rx_byte s val) = set_velocity (data s) (Z.to_nat val) 0 /\
  note_velocity (data (rx_byte s val)) (Z.to_nat val) = Some 0%Z /\
  forall k, note_velocity_prev (data (rx_byte s val)) k = note_velocity_prev (data s) k.
Proof.
  intros Hval Hlen Hstatus Hbyte.
  assert (Hdata : data (rx_byte s val) = set_velocity (data s) (Z.to_nat val) 0).
  { rewrite rx_data_byte by done. unfold data_byte. by rewrite Hstatus, Hbyte. }
  rewrite Hdata. split; [done|]. split.
  - by apply note_velocity_set_velocity.
  - intros k. apply note_velocity_prev_set_velocity.
Qed.

(** C6 as stated fails: the note-off byte for note 60 leaves the previous
    velocity of note 60 at 100. *)
Lemma note_off_keeps_previous_velocity : ~ note_off_clears_both awaiting_note_off 60.
Proof.
  intros Hboth. destruct (Hboth eq_refl eq_refl) as [_ Hprev].
  vm_compute in Hprev. discriminate Hprev.
Qed.

Lemma static_control_change s st c v :
  (0xB0 <= st <= 0xBF)%Z ->
  is_data_byte c ->
  is_data_byte v ->
  data (midi_rx_callback_arm [st; c; v] s)
  = if (c =? 74)%Z
    then set_cc_values (data s) (Z.to_nat (Z.land st 0x0F)) v
    else data s.
Proof.
  intros Hst Hc Hv. destruct (control_change_status st Hst) as [Hcmd _].
  unfold midi_rx_callback_arm; simpl.
  rewrite (rx_status_byte s st) by (unfold is_status_byte; lia).
  rewrite (rx_data_byte _ c), (rx_data_byte _ v) by done.
  unfold data_byte; simpl. rewrite Hcmd; simpl.
  by destruct (c =? 74)%Z.
Qed.

(** C10: a control-change message on the static-state decoder (status
    0xB0..0xBF, controller number [c], value [v]), with the channel [ch]
    (the low nibble of the status byte, at most 15) inside [midi_cc_values].
    When [c = 74], reading [midi_cc_values] back at [ch] gives [v], every
    other cell of [midi_cc_values], the cell at index 74 among them, reads
    as before, and the rest of the bridge is as it was.  For any other
    controller number the bridge, [midi_cc_values] included, is left as it
    was. *)
Theorem control_change_is_keyed_by_channel s st c v :
  (0xB0 <= st <= 0xBF)%Z ->
  is_data_byte c ->
  is_data_byte v ->
  Z.to_nat (Z.land st 0x0F) < length (midi_cc_values (data s)) ->
  let ch := Z.to_nat (Z.land st 0x0F) in
  let d' := data (midi_rx_callback_arm [st; c; v] s) in
  ch <= 15 /\
  d' = (if (c =? 74)%Z then set_cc_values (data s) ch v else data s) /\
  (c = 74%Z ->
     midi_cc_values d' !! ch = Some v /\
     (forall k, k <> ch -> midi_cc_values d' !! k = midi_cc_values (data s) !! k) /\
     midi_note d' = midi_note (data s) /\
     midi_note_velocities d' = midi_note_velocities (data s) /\
     midi_cc_values_prev d' = midi_cc_values_prev (data s)) /\
  (c <> 74%Z -> d' = data s).
Proof.
  intros Hst Hc Hv Hlen ch d'. subst ch d'.
  destruct (control_change_status st Hst) as [_ Hch].
  rewrite (static_control_change s st c v Hst Hc Hv).
  split; [lia|]. split; [done|]. split.
  - intros ->. simpl. split; [by apply list_lookup_insert_eq|].
    split; [|done]. intros k Hk. by apply list_lookup_insert_ne.
  - intros Hne. apply Z.eqb_neq in Hne. by rewrite Hne.
Qed.

Lemma control_change_is_keyed_by_channel_witness :
  let d' := data (midi_rx_callback_arm [0xB4; 74; 100]%Z (mk_state reset zeroed [])) in
  midi_cc_values d' !! 4 = Some 100%Z /\
  (forall k, k <> 4 -> midi_cc_values d' !! k = midi_cc_values zeroed !! k).
Proof.
  assert (H0 : (0xB0 <= 0xB4 <= 0xBF)%Z) by lia.
  assert (H1 : is_data_byte 74) by (unfold is_data_byte; lia).
  assert (H2 : is_data_byte 100) by (unfold is_data_byte; lia).
  assert (H3 : Z.to_nat (Z.land 0xB4 0x0F)
               < length (midi_cc_values (data (mk_state reset zeroed [])))).
  { vm_compute. lia. }
  destruct (control_change_is_keyed_by_channel (mk_state reset zeroed []) 0xB4 74 100
              H0 H1 H2 H3) as (_ & _ & Hstore & _).
  destruct (Hstore eq_refl) as (Hread & Hrest & _).
  split; [exact Hread | exact Hrest].
Defined.

(** Controller 74 on channel index 4 reaches slot 4, the delay feedback
    slot of core 2; controller number 4 itself reaches nothing. *)
Example controller_74_on_channel_4 :
  midi_cc_values (data (midi_rx_callback_arm [0xB4; 74; 100]%Z (mk_state reset zeroed []))) !! 4
    = Some 100%Z /\
  data (midi_rx_callback_arm [0xB0; 4; 100]%Z (mk_state reset zeroed [])) = zeroed.
Proof. split; reflexivity. Qed.

End StaticDecoder.

(** ** The decoder with local state *)
Section LocalDecoder.
Import Bridge Core0.

Lemma local_rx_status_byte l d st :
  is_status_byte st ->
  rx_byte (l, d) st = (mk_locals (Z.land st 0xF0) (Z.land st 0x0F) (note_num l) 0, d).
Proof.
  intros Hst. unfold rx_byte. by rewrite (status_byte_high_bit st Hst).
Qed.

Lemma local_rx_data_byte s val :
  is_data_byte val ->
  rx_byte s val
  = (mk_locals (status (fst (data_byte val s))) (channel (fst (data_byte val s)))
               (note_num (fst (data_byte val s)))
               ((command_num (fst (data_byte val s)) + 1) mod 256),
     snd (data_byte val s)).
Proof.
  intros Hval. unfold rx_byte. rewrite (data_byte_high_bit val Hval). simpl.
  by destruct (data_byte val s).
Qed.







(** A note-on delivered whole in one invocation is applied; delivered as
    [0x90] and then [0x3C, 0x64] it is not. *)
Example note_on_whole_and_split :
  midi_note_velocities (midi_rx_callback_arm [0x90; 0x3C; 0x64]%Z zeroed) !! 60 = Some 100%Z /\
  split_delivery 1 0x90 0x3C 0x64 zeroed = zeroed.
Proof. split; reflexivity. Qed.

End LocalDecoder.

(** ** Both decoders *)
Section Decoders.
Import Bridge.

Lemma local_note_off_clears_velocity l d val :
  is_data_byte val ->
  Z.to_nat val < length (midi_note_velocities d) ->
  Core0.status l = 0x80%Z ->
  Core0.command_num l = 0%Z ->
  snd (Core0.rx_byte (l, d) val) = set_note_velocities d (Z.to_nat val) 0 /\
  midi_note_velocities (snd (Core0.rx_byte (l, d) val)) !! Z.to_nat val = Some 0%Z /\
  midi_note (snd (Core0.rx_byte (l, d) val)) = midi_note d.
Proof.
  intros Hval Hlen Hstatus Hcmd.
  assert (Hdata : snd (Core0.rx_byte (l, d) val) = set_note_velocities d (Z.to_nat val) 0).
  { rewrite local_rx_data_byte by done. unfold Core0.data_byte.
    by rewrite Hstatus, Hcmd. }
  rewrite Hdata. split; [done|]. split; [|done].
  simpl. by apply list_lookup_insert_eq.
Qed.

(** C5: from the reset state, the static-state decoder fed
    [0x90, 0x3C, 0x64] leaves the bridge reporting velocity 100 for note 60,
    and fed [0x80, 0x3C, 0x00] after that leaves it reporting velocity 0;
    the local-state decoder does the same in its own velocity table when
    each message arrives whole in one invocation, or both in one. *)
Theorem note_on_then_note_off_is_reported d events :
  length (midi_note d) = 128 ->
  length (midi_note_velocities d) = 128 ->
  let s1 := MidiArm.midi_rx_callback_arm [0x90; 0x3C; 0x64]%Z
              (MidiArm.mk_state MidiArm.reset d events) in
  let s2 := MidiArm.midi_rx_callback_arm [0x80; 0x3C; 0x00]%Z s1 in
  let c1 := Core0.midi_rx_callback_arm [0x90; 0x3C; 0x64]%Z d in
  let c2 := Core0.midi_rx_callback_arm [0x80; 0x3C; 0x00]%Z c1 in
  let c3 := Core0.midi_rx_callback_arm [0x90; 0x3C; 0x64; 0x80; 0x3C; 0x00]%Z d in
  note_velocity (MidiArm.data s1) 60 = Some 100%Z /\
  note_velocity (MidiArm.data s2) 60 = Some 0%Z /\
  midi_note_velocities c1 !! 60 = Some 100%Z /\
  midi_note_velocities c2 !! 60 = Some 0%Z /\
  midi_note_velocities c3 !! 60 = Some 0%Z.
Proof.
  intros Hnotes Hvels s1 s2 c1 c2 c3.
  assert (Hs1 : MidiArm.data s1 = set_velocity d 60 100) by reflexivity.
  assert (Hs2 : MidiArm.data s2 = set_velocity (set_velocity d 60 100) 60 0)
    by reflexivity.
  assert (Hc1 : c1 = set_note_velocities d 60 100) by reflexivity.
  assert (Hc2 : c2 = set_note_velocities (set_note_velocities d 60 100) 60 0)
    by reflexivity.
  assert (Hc3 : c3 = c2) by reflexivity.
  rewrite Hs1, Hs2, Hc3, Hc2, Hc1. simpl.
  split; [apply note_velocity_set_velocity; lia|].
  split; [apply note_velocity_set_velocity; rewrite length_set_velocity; lia|].
  split; [apply list_lookup_insert_eq; lia|].
  split; apply list_lookup_insert_eq; rewrite length_insert; lia.
Qed.

Lemma note_on_then_note_off_is_reported_witness :
  let s1 := MidiArm.midi_rx_callback_arm [0x90; 0x3C; 0x64]%Z
              (MidiArm.mk_state MidiArm.reset zeroed []) in
  let s2 := MidiArm.midi_rx_callback_arm [0x80; 0x3C; 0x00]%Z s1 in
  let c1 := Core0.midi_rx_callback_arm [0x90; 0x3C; 0x64]%Z zeroed in
  let c2 := Core0.midi_rx_callback_arm [0x80; 0x3C; 0x00]%Z c1 in
  let c3 := Core0.midi_rx_callback_arm [0x90; 0x3C; 0x64; 0x80; 0x3C; 0x00]%Z zeroed in
  note_velocity (MidiArm.data s1) 60 = Some 100%Z /\
  note_velocity (MidiArm.data s2) 60 = Some 0%Z /\
  midi_note_velocities c1 !! 60 = Some 100%Z /\
  midi_note_velocities c2 !! 60 = Some 0%Z /\
  midi_note_velocities c3 !! 60 = Some 0%Z.
Proof.
  apply (note_on_then_note_off_is_reported zeroed []); reflexivity.
Defined.

(** C6 (as the code has it): a data byte [val] read at byte position 0
    under a note-off status sets the velocity of note [val] to 0 and leaves
    every previous velocity, that of note [val] included, as it was: in the
    static-state decoder the rest of the bridge is untouched, and the
    local-state decoder zeroes its own velocity table and does not touch the
    note slots at all. *)
Theorem note_off_clears_the_velocity_only s l d val :
  is_data_byte val ->
  Z.to_nat val < length (midi_note (MidiArm.data s)) ->
  Z.to_nat val < length (midi_note_velocities d) ->
  MidiArm.midi_status (MidiArm.dec s) = 0x80%Z ->
  MidiArm.midi_byte_num (MidiArm.dec s) = 0%Z ->
  Core0.status l = 0x80%Z ->
  Core0.command_num l = 0%Z ->
  (MidiArm.data (MidiArm.rx_byte s val) = set_velocity (MidiArm.data s) (Z.to_nat val) 0 /\
   note_velocity (MidiArm.data (MidiArm.rx_byte s val)) (Z.to_nat val) = Some 0%Z /\
   forall k, note_velocity_prev (MidiArm.data (MidiArm.rx_byte s val)) k
             = note_velocity_prev (MidiArm.data s) k) /\
  (snd (Core0.rx_byte (l, d) val) = set_note_velocities d (Z.to_nat val) 0 /\
   midi_note_velocities (snd (Core0.rx_byte (l, d) val)) !! Z.to_nat val = Some 0%Z /\
   midi_note (snd (Core0.rx_byte (l, d) val)) = midi_note d).
Proof.
  intros Hval Hlen1 Hlen2 Hst1 Hbyte1 Hst2 Hbyte2. split.
  - by apply static_note_off_clears_velocity.
  - by apply local_note_off_clears_velocity.
Qed.

Lemma note_off_clears_the_velocity_only_witness :
  let s := MidiArm.awaiting_note_off in
  let l := Core0.mk_locals 0x80 0 0 0 in
  let d := Core0.bridge_note_60 in
  (MidiArm.data (MidiArm.rx_byte s 60) = set_velocity (MidiArm.data s) (Z.to_nat 60) 0 /\
   note_velocity (MidiArm.data (MidiArm.rx_byte s 60)) (Z.to_nat 60) = Some 0%Z /\
   forall k, note_velocity_prev (MidiArm.data (MidiArm.rx_byte s 60)) k
             = note_velocity_prev (MidiArm.data s) k) /\
  (snd (Core0.rx_byte (l, d) 60) = set_note_velocities d (Z.to_nat 60) 0 /\
   midi_note_velocities (snd (Core0.rx_byte (l, d) 60)) !! Z.to_nat 60 = Some 0%Z /\
   midi_note (snd (Core0.rx_byte (l, d) 60)) = midi_note d).
Proof.
  apply (note_off_clears_the_velocity_only MidiArm.awaiting_note_off
           (Core0.mk_locals 0x80 0 0 0) Core0.bridge_note_60 60).
  - unfold is_data_byte. lia.
  - vm_compute. lia.
  - vm_compute. lia.
  - reflexivity.
  - reflexivity.
  - reflexivity.
  - reflexivity.
Defined.

End Decoders.

(** * Further properties of the decoders *)

(** ** Bytes and bridge stores *)
Section ByteFields.
Import Bridge.

Lemma byte_split val : is_byte val -> is_data_byte val \/ is_status_byte val.
Proof. unfold is_byte, is_data_byte, is_status_byte. lia. Qed.

Lemma land_high_nibble x : is_byte x -> Z.land x 0xF0 = (16 * (x / 16))%Z.
Proof.
  intros Hx. unfold is_byte in Hx.
  apply Z.eqb_eq.
  apply (byte_forall (fun x => Z.land x 0xF0 =? 16 * (x / 16))%Z eq_refl). lia.
Qed.

Lemma land_low_nibble x : is_byte x -> Z.land x 0x0F = (x mod 16)%Z.
Proof.
  intros Hx. unfold is_byte in Hx.
  apply Z.eqb_eq.
  apply (byte_forall (fun x => Z.land x 0x0F =? x mod 16)%Z eq_refl). lia.
Qed.

(** The command of a status byte [base + channel]. *)
Lemma status_command base st :
  (base mod 16 = 0)%Z -> (0x80 <= base)%Z -> (base <= st <= base + 15)%Z ->
  (st <= 0xFF)%Z ->
  is_status_byte st /\ Z.land st 0xF0 = base /\ Z.land st 0x0F = (st - base)%Z.
Proof.
  intros Hbase Hlo Hst Hhi. unfold is_status_byte.
  rewrite land_high_nibble, land_low_nibble by (unfold is_byte; lia).
  split; [lia|]. split.
  - apply Z.mod_divide in Hbase as [q ->]; [|lia].
    rewrite <- (Z.div_unique st 16 q (st - q * 16)); lia.
  - apply Z.mod_divide in Hbase as [q ->]; [|lia].
    symmetry. apply (Z.mod_unique st 16 q (st - q * 16)); lia.
Qed.

Lemma velocities_set_velocity d i v :
  map velocity (midi_note (set_velocity d i v)) = <[i := v]> (map velocity (midi_note d)).
Proof.
  unfold set_velocity. destruct (midi_note d !! i) as [n|] eqn:Hn; simpl.
  - by rewrite list_fmap_insert.
  - symmetry. apply list_insert_ge. rewrite length_map.
    by apply lookup_ge_None.
Qed.

Lemma previous_set_velocity d i v :
  map velocity_prev (midi_note (set_velocity d i v)) = map velocity_prev (midi_note d).
Proof.
  unfold set_velocity. destruct (midi_note d !! i) as [n|] eqn:Hn; simpl; [|done].
  rewrite list_fmap_insert. simpl. apply list_insert_id.
  by rewrite list_lookup_fmap, Hn.
Qed.

Lemma same_previous_refl d : same_previous_values d d.
Proof. by repeat split. Qed.

Lemma same_previous_trans d1 d2 d3 :
  same_previous_values d1 d2 -> same_previous_values d2 d3 -> same_previous_values d1 d3.
Proof.
  intros (H1 & H2 & H3 & H4) (G1 & G2 & G3 & G4).
  repeat split; congruence.
Qed.

Lemma same_previous_set_velocity d i v : same_previous_values d (set_velocity d i v).
Proof.
  split; [apply previous_set_velocity|].
  unfold set_velocity. by destruct (midi_note d !! i).
Qed.

Lemma same_previous_set_cc_values d i v : same_previous_values d (set_cc_values d i v).
Proof.
  unfold same_previous_values, set_cc_values; simpl.
  by rewrite length_insert.
Qed.

Lemma same_previous_set_note_velocities d i v :
  same_previous_values d (set_note_velocities d i v).
Proof.
  unfold same_previous_values, set_note_velocities; simpl.
  by rewrite length_insert.
Qed.

Lemma in_range_set_velocity d i v :
  bridge_in_range d -> is_data_byte v -> bridge_in_range (set_velocity d i v).
Proof.
  intros (Hn & Hv & Hc) Hval. unfold set_velocity.
  destruct (midi_note d !! i) as [n|]; [|done].
  split; [|done]. simpl. by apply Forall_insert.
Qed.

Lemma in_range_set_cc_values d i v :
  bridge_in_range d -> is_data_byte v -> bridge_in_range (set_cc_values d i v).
Proof.
  intros (Hn & Hv & Hc) Hval. split; [done|]. split; [done|].
  simpl. by apply Forall_insert.
Qed.

Lemma in_range_set_note_velocities d i v :
  bridge_in_range d -> is_data_byte v -> bridge_in_range (set_note_velocities d i v).
Proof.
  intros (Hn & Hv & Hc) Hval. split; [done|]. split; [|done].
  simpl. by apply Forall_insert.
Qed.

Lemma zero_is_data_byte : is_data_byte 0.
Proof. unfold is_data_byte. lia. Qed.

End ByteFields.

(** ** The static-state decoder on arbitrary byte streams *)
Section StaticDecoderStreams.
Import Bridge MidiArm.

Lemma rx_byte_cases s val :
  is_byte val ->
  (is_status_byte val /\
   rx_byte s val
   = mk_state (mk_decoder (Z.land val 0xF0) (Z.land val 0x0F) 0 0) (data s) (log s)) \/
  (is_data_byte val /\ rx_byte s val = next_byte (data_byte val s)).
Proof.
  intros Hval. destruct (byte_split val Hval) as [Hd|Hs].
  - right. split; [done|]. by apply rx_data_byte.
  - left. split; [done|]. by apply rx_status_byte.
Qed.

(** The bridge after a data byte is the bridge before, or one store of a
    velocity or of a controller value into it. *)
Lemma data_byte_store val s :
  data (data_byte val s) = data s \/
  (exists i v, (v = 0%Z \/ v = val) /\ data (data_byte val s) = set_velocity (data s) i v) \/
  (exists i, data (data_byte val s) = set_cc_values (data s) i val).
Proof.
  unfold data_byte.
  destruct (midi_status (dec s) =? 0x80)%Z.
  { destruct (midi_byte_num (dec s) =? 0)%Z; [|by left].
    right; left. exists (Z.to_nat val), 0%Z. split; [by left | done]. }
  destruct (midi_status (dec s) =? 0x90)%Z.
  { destruct (midi_byte_num (dec s) =? 0)%Z; [by left|].
    destruct (midi_byte_num (dec s) =? 1)%Z; [|by left].
    right; left. exists (Z.to_nat (midi_note_num (dec s))), val. split; [by right | done]. }
  destruct (midi_status (dec s) =? 0xB0)%Z; [|by left].
  destruct (midi_byte_num (dec s) =? 0)%Z; [by left|].
  destruct (midi_byte_num (dec s) =? 1)%Z; [|by left].
  destruct (midi_note_num (dec s) =? 74)%Z; [|by left].
  right; right. by exists (Z.to_nat (midi_channel (dec s))).
Qed.

Lemma rx_byte_previous s val :
  same_previous_values (data s) (data (rx_byte s val)) /\
  midi_note_velocities (data (rx_byte s val)) = midi_note_velocities (data s).
Proof.
  unfold rx_byte. destruct (Z.land val 0x80 =? 0x80)%Z; simpl.
  { split; [apply same_previous_refl | done]. }
  destruct (data_byte_store val s) as [->|[(i & v & _ & ->)|(i & ->)]].
  - split; [apply same_previous_refl | done].
  - split; [apply same_previous_set_velocity|].
    unfold set_velocity. by destruct (midi_note (data s) !! i).
  - split; [apply same_previous_set_cc_values | done].
Qed.

(** X1: whatever bytes the static-state decoder is fed, in however many
    invocations, it writes no previous velocity, no previous controller
    value and no cell of [midi_note_velocities], and it changes the size of
    no array: it only stores into current values. *)
Theorem static_decoder_writes_current_values_only fifo s :
  same_previous_values (data s) (data (midi_rx_callback_arm fifo s)) /\
  midi_note_velocities (data (midi_rx_callback_arm fifo s)) = midi_note_velocities (data s).
Proof.
  unfold midi_rx_callback_arm. revert s.
  induction fifo as [|val fifo IH]; intros s; simpl.
  - split; [apply same_previous_refl | done].
  - destruct (IH (rx_byte s val)) as [IH1 IH2].
    destruct (rx_byte_previous s val) as [H1 H2]. split.
    + by eapply same_previous_trans.
    + congruence.
Qed.

Lemma rx_byte_in_range s val :
  is_byte val -> bridge_in_range (data s) -> bridge_in_range (data (rx_byte s val)).
Proof.
  intros Hval Hrange. destruct (rx_byte_cases s val Hval) as [[_ ->]|[Hd ->]]; [done|].
  simpl. destruct (data_byte_store val s) as [->|[(i & v & Hv & ->)|(i & ->)]].
  - done.
  - apply in_range_set_velocity; [done|].
    destruct Hv as [-> | ->]; [apply zero_is_data_byte | done].
  - by apply in_range_set_cc_values.
Qed.

(** X2: if every current value of the bridge is a MIDI data byte (0..127),
    it still is after the static-state decoder has read any stream of
    bytes. *)
Theorem static_decoder_keeps_data_bytes fifo s :
  Forall is_byte fifo ->
  bridge_in_range (data s) ->
  bridge_in_range (data (midi_rx_callback_arm fifo s)).
Proof.
  unfold midi_rx_callback_arm. intros Hfifo. revert s.
  induction Hfifo as [|val fifo Hval _ IH]; intros s Hrange; simpl; [done|].
  apply IH. by apply rx_byte_in_range.
Qed.

Lemma zeroed_in_range : bridge_in_range zeroed.
Proof.
  unfold bridge_in_range, zeroed.
  cbn [midi_note midi_note_velocities midi_cc_values].
  split; [|split]; apply Forall_replicate; apply zero_is_data_byte.
Qed.

Lemma bytes_are_bytes (l : list Z) :
  forallb (fun x => (0 <=? x) && (x <=? 0xFF))%Z l = true -> Forall is_byte l.
Proof.
  intros H. apply Forall_forall. intros x Hx.
  rewrite forallb_forall in H. specialize (H x).
  rewrite <- list_elem_of_In in H. specialize (H Hx).
  apply andb_true_iff in H as [?%Z.leb_le ?%Z.leb_le]. by split.
Qed.

Lemma static_decoder_keeps_data_bytes_witness :
  bridge_in_range
    (data (midi_rx_callback_arm [0x05; 0x90; 0x3C; 0x64; 0xB5; 74; 127; 0xFF; 0x7F]%Z
             (mk_state reset zeroed []))).
Proof.
  apply (static_decoder_keeps_data_bytes
           [0x05; 0x90; 0x3C; 0x64; 0xB5; 74; 127; 0xFF; 0x7F]%Z
           (mk_state reset zeroed [])).
  - apply bytes_are_bytes. reflexivity.
  - apply zeroed_in_range.
Defined.

End StaticDecoderStreams.

(** ** The static-state decoder: messages and byte positions *)
Section StaticDecoderMessages.
Import Bridge MidiArm.

Lemma callback_app fifo1 fifo2 s :
  midi_rx_callback_arm (fifo1 ++ fifo2) s
  = midi_rx_callback_arm fifo2 (midi_rx_callback_arm fifo1 s).
Proof. unfold midi_rx_callback_arm. apply fold_left_app. Qed.

Lemma data_byte_position val s :
  midi_byte_num (dec (data_byte val s)) = midi_byte_num (dec s) /\
  midi_status (dec (data_byte val s)) = midi_status (dec s) /\
  midi_channel (dec (data_byte val s)) = midi_channel (dec s).
Proof.
  unfold data_byte.
  destruct (midi_status (dec s) =? 0x80)%Z.
  { by destruct (midi_byte_num (dec s) =? 0)%Z. }
  destruct (midi_status (dec s) =? 0x90)%Z.
  { destruct (midi_byte_num (dec s) =? 0)%Z; [done|].
    by destruct (midi_byte_num (dec s) =? 1)%Z. }
  destruct (midi_status (dec s) =? 0xB0)%Z; [|done].
  destruct (midi_byte_num (dec s) =? 0)%Z; [done|].
  destruct (midi_byte_num (dec s) =? 1)%Z; [|done].
  by destruct (midi_note_num (dec s) =? 74)%Z.
Qed.

Lemma data_byte_past_the_message val s :
  past_the_message s ->
  data (data_byte val s) = data s /\ dec (data_byte val s) = dec s.
Proof.
  intros Hpast. unfold data_byte.
  destruct (Z.eqb_spec (midi_status (dec s)) 0x80) as [Hoff|Hoff].
  { destruct (Z.eqb_spec (midi_byte_num (dec s)) 0) as [H0|_]; [|done].
    unfold past_the_message in Hpast. lia. }
  assert (Hpos : (2 <= midi_byte_num (dec s))%Z).
  { destruct Hpast as [?|[? _]]; [done | contradiction]. }
  destruct (midi_status (dec s) =? 0x90)%Z.
  { destruct (Z.eqb_spec (midi_byte_num (dec s)) 0); [lia|].
    destruct (Z.eqb_spec (midi_byte_num (dec s)) 1); [lia | done]. }
  destruct (midi_status (dec s) =? 0xB0)%Z; [|done].
  destruct (Z.eqb_spec (midi_byte_num (dec s)) 0); [lia|].
  destruct (Z.eqb_spec (midi_byte_num (dec s)) 1); [lia | done].
Qed.

(** Data bytes past the message only advance the byte counter, up to the
    point where the 8-bit counter wraps. *)
Lemma skip_past_the_message ds s :
  Forall is_data_byte ds ->
  past_the_message s ->
  (midi_byte_num (dec s) < 256)%Z ->
  (midi_byte_num (dec s) + Z.of_nat (length ds) <= 256)%Z ->
  data (midi_rx_callback_arm ds s) = data s /\
  dec (midi_rx_callback_arm ds s)
  = mk_decoder (midi_status (dec s)) (midi_channel (dec s)) (midi_note_num (dec s))
               ((midi_byte_num (dec s) + Z.of_nat (length ds)) mod 256).
Proof.
  intros Hds. revert s.
  induction Hds as [|val ds Hval _ IH]; intros s Hpast Hu8 Hlen.
  - simpl. rewrite Z.add_0_r, Z.mod_small.
    + split; [done|]. by destruct (dec s).
    + unfold past_the_message in Hpast. lia.
  - unfold midi_rx_callback_arm in *. cbn [fold_left].
    rewrite rx_data_byte by done.
    destruct (data_byte_past_the_message val s Hpast) as [Hdata Hdec].
    simpl length in Hlen.
    destruct ds as [|val' ds].
    + simpl. rewrite Hdec. split; [done|]. do 2 f_equal.
    + assert (Hb : (midi_byte_num (dec s) + 1 < 256)%Z) by (simpl length in Hlen; lia).
      assert (Hb0 : (0 <= midi_byte_num (dec s))%Z)
        by (unfold past_the_message in Hpast; lia).
      destruct (IH (next_byte (data_byte val s))) as [IHdata IHdec].
      * unfold past_the_message, next_byte. simpl. rewrite Hdec.
        rewrite Z.mod_small by lia.
        destruct Hpast as [?|[? ?]]; [left; lia | right; split; [done | lia]].
      * unfold next_byte. simpl. rewrite Hdec. rewrite Z.mod_small by lia. lia.
      * unfold next_byte. simpl. rewrite Hdec. rewrite Z.mod_small by lia.
        simpl length in *. lia.
      * rewrite IHdata, IHdec. unfold next_byte. simpl. rewrite Hdec, Hdata.
        split; [done|]. f_equal.
        rewrite (Z.mod_small (midi_byte_num (dec s) + 1)) by lia.
        f_equal. simpl length. lia.
Qed.

Lemma rx_data_byte_position s val :
  is_data_byte val ->
  midi_byte_num (dec (rx_byte s val)) = ((midi_byte_num (dec s) + 1) mod 256)%Z.
Proof.
  intros Hval. rewrite rx_data_byte by done. unfold next_byte; simpl.
  by destruct (data_byte_position val s) as (-> & _ & _).
Qed.

Lemma after_status_byte st s :
  is_status_byte st ->
  midi_rx_callback_arm [st] s
  = mk_state (mk_decoder (Z.land st 0xF0) (Z.land st 0x0F) 0 0) (data s) (log s).
Proof. intros Hst. unfold midi_rx_callback_arm. simpl. by apply rx_status_byte. Qed.

Lemma static_note_message_store s st n v :
  (0x80 <= st <= 0x9F)%Z ->
  is_data_byte n -> is_data_byte v ->
  data (midi_rx_callback_arm [st; n; v] s)
  = set_velocity (data s) (Z.to_nat n) (if (st <? 0x90)%Z then 0%Z else v).
Proof.
  intros Hst Hn Hv. change [st; n; v] with ([st] ++ [n; v]).
  rewrite callback_app.
  destruct (Z.ltb_spec st 0x90) as [Hoff|Hon].
  - destruct (status_command 0x80 st) as (Hs & Hcmd & _); [done | lia | lia | lia |].
    rewrite after_status_byte by done. unfold midi_rx_callback_arm; simpl.
    rewrite (rx_data_byte _ n), (rx_data_byte _ v) by done.
    unfold data_byte; simpl. by rewrite Hcmd.
  - destruct (status_command 0x90 st) as (Hs & Hcmd & _); [done | lia | lia | lia |].
    rewrite after_status_byte by done. unfold midi_rx_callback_arm; simpl.
    rewrite (rx_data_byte _ n), (rx_data_byte _ v) by done.
    unfold data_byte; simpl. by rewrite Hcmd.
Qed.

(** X3: a note-on or note-off message read by the static-state decoder from
    any state (status 0x80..0x9F, note [n], velocity [v]) stores, as the
    velocity of note [n], [v] for a note-on and 0 for a note-off, whatever
    the release velocity; the note then reports that velocity and no other
    note's velocity changes. *)
Theorem static_note_message s st n v :
  (0x80 <= st <= 0x9F)%Z ->
  is_data_byte n -> is_data_byte v ->
  Z.to_nat n < length (midi_note (data s)) ->
  let stored := if (st <? 0x90)%Z then 0%Z else v in
  let d' := data (midi_rx_callback_arm [st; n; v] s) in
  d' = set_velocity (data s) (Z.to_nat n) stored /\
  note_velocity d' (Z.to_nat n) = Some stored /\
  forall k, k <> Z.to_nat n -> note_velocity d' k = note_velocity (data s) k.
Proof.
  intros Hst Hn Hv Hlen stored d'.
  assert (Hd' : d' = set_velocity (data s) (Z.to_nat n) stored)
    by by apply static_note_message_store.
  rewrite Hd'. split; [done|]. split.
  - by apply note_velocity_set_velocity.
  - intros k Hk. unfold note_velocity. rewrite midi_note_set_velocity.
    destruct (midi_note (data s) !! Z.to_nat n); [|done].
    by rewrite decide_False.
Qed.

Lemma static_note_message_witness :
  let s := mk_state reset zeroed [] in
  let d' := data (midi_rx_callback_arm [0x83; 0x40; 0x7F]%Z s) in
  d' = set_velocity (data s) (Z.to_nat 0x40) 0 /\
  note_velocity d' (Z.to_nat 0x40) = Some 0%Z /\
  forall k, k <> Z.to_nat 0x40 -> note_velocity d' k = note_velocity (data s) k.
Proof.
  apply (static_note_message (mk_state reset zeroed []) 0x83 0x40 0x7F).
  - lia.
  - unfold is_data_byte. lia.
  - unfold is_data_byte. lia.
  - vm_compute. lia.
Defined.

(** X4: running status is not honoured.  After a status byte and two data
    bytes, up to 254 further data bytes with no new status byte change
    nothing in the bridge: a second note-on sent without repeating the
    status byte is lost. *)
Theorem static_decoder_ignores_running_status s st n v ds :
  is_status_byte st -> is_data_byte n -> is_data_byte v ->
  Forall is_data_byte ds -> length ds <= 254 ->
  data (midi_rx_callback_arm (st :: n :: v :: ds) s)
  = data (midi_rx_callback_arm [st; n; v] s).
Proof.
  intros Hst Hn Hv Hds Hlen.
  change (st :: n :: v :: ds) with ([st; n; v] ++ ds). rewrite callback_app.
  set (s3 := midi_rx_callback_arm [st; n; v] s).
  assert (Hpos : midi_byte_num (dec s3) = 2%Z).
  { subst s3. unfold midi_rx_callback_arm; simpl.
    rewrite !rx_data_byte_position by done.
    by rewrite rx_status_byte. }
  apply skip_past_the_message; [done | left; lia | lia | lia].
Qed.

Lemma static_decoder_ignores_running_status_witness :
  data (midi_rx_callback_arm (0x90 :: 0x3C :: 0x64 :: [0x40; 0x50])%Z
          (mk_state reset zeroed []))
  = data (midi_rx_callback_arm [0x90; 0x3C; 0x64]%Z (mk_state reset zeroed [])).
Proof.
  apply (static_decoder_ignores_running_status (mk_state reset zeroed [])
           0x90 0x3C 0x64 [0x40; 0x50]%Z).
  - unfold is_status_byte. lia.
  - unfold is_data_byte. lia.
  - unfold is_data_byte. lia.
  - repeat first [apply Forall_nil_2 | apply Forall_cons_2]; unfold is_data_byte; lia.
  - simpl. lia.
Defined.

End StaticDecoderMessages.

Section StaticDecoderEdges.
Import Bridge MidiArm.

Lemma counter_wraps_store s st n ds m :
  (0x80 <= st <= 0x8F)%Z ->
  is_data_byte n -> is_data_byte m ->
  Forall is_data_byte ds -> length ds <= 255 ->
  data (midi_rx_callback_arm (st :: n :: ds ++ [m]) s)
  = if length ds =? 255
    then set_velocity (set_velocity (data s) (Z.to_nat n) 0) (Z.to_nat m) 0
    else set_velocity (data s) (Z.to_nat n) 0.
Proof.
  intros Hst Hn Hm Hds Hlen.
  destruct (status_command 0x80 st) as (Hs & Hcmd & _); [done | lia | lia | lia |].
  change (st :: n :: ds ++ [m]) with ([st; n] ++ ds ++ [m]).
  rewrite !callback_app.
  set (s2 := midi_rx_callback_arm [st; n] s).
  assert (Hs2 : data s2 = set_velocity (data s) (Z.to_nat n) 0 /\
                midi_status (dec s2) = 0x80%Z /\ midi_byte_num (dec s2) = 1%Z).
  { subst s2. change [st; n] with ([st] ++ [n]).
    rewrite callback_app, (after_status_byte st s) by done.
    unfold midi_rx_callback_arm; simpl. rewrite rx_data_byte by done.
    unfold data_byte; simpl. by rewrite Hcmd. }
  destruct Hs2 as (Hdata2 & Hstatus2 & Hpos2).
  destruct (skip_past_the_message ds s2) as [Hdata3 Hdec3];
    [done | right; split; [done | lia] | lia | lia |].
  set (s3 := midi_rx_callback_arm ds s2) in *.
  unfold midi_rx_callback_arm at 1; simpl. rewrite rx_data_byte by done.
  unfold data_byte; simpl. rewrite Hdec3; simpl. rewrite Hstatus2, Hpos2; simpl.
  destruct (Nat.eqb_spec (length ds) 255) as [H255|H255].
  - rewrite H255. simpl. by rewrite Hdata3, Hdata2.
  - rewrite Z.mod_small by lia.
    destruct (Z.eqb_spec (1 + Z.of_nat (length ds)) 0) as [?|_]; [lia|].
    by rewrite Hdata3, Hdata2.
Qed.

(** X5: the byte counter is 8 bits wide and wraps.  Under a note-off status
    the data byte at position 0 zeroes its note; the data bytes after it are
    ignored, except that the 257th data byte since the status byte is taken
    as position 0 again and zeroes the velocity of the note it names.  Read
    back from the bridge: the note of position 0 has velocity 0; the note
    named by the last byte has velocity 0 when that byte is the 257th, and
    the velocity it had when it comes earlier and names another note. *)
Theorem static_decoder_counter_wraps s st n ds m :
  (0x80 <= st <= 0x8F)%Z ->
  is_data_byte n -> is_data_byte m ->
  Forall is_data_byte ds -> length ds <= 255 ->
  let d' := data (midi_rx_callback_arm (st :: n :: ds ++ [m]) s) in
  d' = (if length ds =? 255
        then set_velocity (set_velocity (data s) (Z.to_nat n) 0) (Z.to_nat m) 0
        else set_velocity (data s) (Z.to_nat n) 0) /\
  (Z.to_nat n < length (midi_note (data s)) ->
     note_velocity d' (Z.to_nat n) = Some 0%Z) /\
  (length ds = 255 -> Z.to_nat m < length (midi_note (data s)) ->
     note_velocity d' (Z.to_nat m) = Some 0%Z) /\
  (length ds < 255 -> m <> n ->
     note_velocity d' (Z.to_nat m) = note_velocity (data s) (Z.to_nat m)).
Proof.
  intros Hst Hn Hm Hds Hlen d'. subst d'.
  rewrite (counter_wraps_store s st n ds m Hst Hn Hm Hds Hlen).
  unfold is_data_byte in Hn, Hm.
  split; [done|]. split; [|split].
  - intros Hin. destruct (Nat.eqb_spec (length ds) 255) as [_|_].
    + destruct (decide (Z.to_nat m = Z.to_nat n)) as [->|Hne].
      * apply note_velocity_set_velocity. by rewrite length_set_velocity.
      * rewrite note_velocity_set_velocity_ne by done.
        by apply note_velocity_set_velocity.
    + by apply note_velocity_set_velocity.
  - intros H255 Him. rewrite H255. simpl.
    apply note_velocity_set_velocity. by rewrite length_set_velocity.
  - intros H255 Hne. destruct (Nat.eqb_spec (length ds) 255) as [?|_]; [lia|].
    apply note_velocity_set_velocity_ne. lia.
Qed.

Lemma static_decoder_counter_wraps_witness :
  let d' := data (midi_rx_callback_arm (0x80 :: 0x3C :: replicate 255 0x00 ++ [0x40])%Z
                    (mk_state reset (set_velocity zeroed 64 100) [])) in
  note_velocity (set_velocity zeroed 64 100) 64 = Some 100%Z /\
  note_velocity d' (Z.to_nat 0x3C) = Some 0%Z /\
  note_velocity d' (Z.to_nat 0x40) = Some 0%Z.
Proof.
  destruct (static_decoder_counter_wraps (mk_state reset (set_velocity zeroed 64 100) [])
              0x80 0x3C (replicate 255 0x00%Z) 0x40) as (_ & Hfirst & Hlast & _).
  - lia.
  - unfold is_data_byte. lia.
  - unfold is_data_byte. lia.
  - apply Forall_replicate. unfold is_data_byte. lia.
  - rewrite length_replicate. lia.
  - split; [reflexivity|]. split.
    + apply Hfirst. vm_compute. lia.
    + apply Hlast; [by rewrite length_replicate | vm_compute; lia].
Defined.

Lemma data_byte_unknown_status val s :
  ~ known_status (midi_status (dec s)) ->
  data_byte val s = log_event EVENT_WARN "Unknown MIDI message" s.
Proof.
  intros Hunknown. unfold data_byte, known_status in *.
  destruct (Z.eqb_spec (midi_status (dec s)) 0x80); [tauto|].
  destruct (Z.eqb_spec (midi_status (dec s)) 0x90); [tauto|].
  destruct (Z.eqb_spec (midi_status (dec s)) 0xB0); [tauto|]. done.
Qed.

(** X6: while the status is none of 0x80, 0x90 and 0xB0 (as before the
    first status byte, when it is 0), every data byte is answered by one
    "Unknown MIDI message" warning in the event log and the bridge is left as it
    was. *)
Theorem static_decoder_warns_on_unknown_status ds s :
  ~ known_status (midi_status (dec s)) ->
  Forall is_data_byte ds ->
  data (midi_rx_callback_arm ds s) = data s /\
  log (midi_rx_callback_arm ds s) = log s ++ replicate (length ds) unknown_message.
Proof.
  intros Hunknown Hds. revert s Hunknown.
  induction Hds as [|val ds Hval _ IH]; intros s Hunknown.
  - simpl. by rewrite app_nil_r.
  - unfold midi_rx_callback_arm in *. cbn [fold_left].
    rewrite rx_data_byte by done. rewrite data_byte_unknown_status by done.
    destruct (IH (next_byte (log_event EVENT_WARN "Unknown MIDI message" s)))
      as [IHdata IHlog]; [done|].
    rewrite IHdata, IHlog. split; [done|].
    simpl. by rewrite <- app_assoc.
Qed.

Lemma static_decoder_warns_on_unknown_status_witness :
  data (midi_rx_callback_arm [0x3C; 0x64]%Z (mk_state reset zeroed [])) = zeroed /\
  log (midi_rx_callback_arm [0x3C; 0x64]%Z (mk_state reset zeroed []))
  = [] ++ replicate (length [0x3C; 0x64]%Z) unknown_message.
Proof.
  apply (static_decoder_warns_on_unknown_status [0x3C; 0x64]%Z (mk_state reset zeroed [])).
  - unfold known_status. simpl. lia.
  - repeat first [apply Forall_nil_2 | apply Forall_cons_2]; unfold is_data_byte; lia.
Defined.

End StaticDecoderEdges.

(** * The local-state decoder on arbitrary byte streams *)
Section LocalDecoderStreams.
Import Bridge Core0.

Lemma local_data_byte_store val s :
  snd (data_byte val s) = snd s \/
  (exists i v, (v = 0%Z \/ v = val) /\
     snd (data_byte val s) = set_note_velocities (snd s) i v) \/
  (exists i, snd (data_byte val s) = set_cc_values (snd s) i val).
Proof.
  destruct s as [l d]. unfold data_byte.
  destruct (status l =? 0x80)%Z.
  { destruct (command_num l =? 0)%Z; [|by left].
    right; left. exists (Z.to_nat val), 0%Z. split; [by left | done]. }
  destruct (status l =? 0x90)%Z.
  { destruct (command_num l =? 0)%Z; [by left|].
    destruct (command_num l =? 1)%Z; [|by left].
    right; left. exists (Z.to_nat (note_num l)), val. split; [by right | done]. }
  destruct (status l =? 0xB0)%Z; [|by left].
  destruct (command_num l =? 0)%Z; [by left|].
  destruct (command_num l =? 1)%Z; [|by left].
  right; right. by exists (Z.to_nat (note_num l)).
Qed.

Lemma local_rx_byte_snd s val :
  snd (rx_byte s val) = snd s \/ snd (rx_byte s val) = snd (data_byte val s).
Proof.
  unfold rx_byte. destruct (negb _); [by left|].
  right. by destruct (data_byte val s).
Qed.

Lemma local_rx_byte_store s val :
  snd (rx_byte s val) = snd s \/
  (exists i v, (v = 0%Z \/ v = val) /\
     snd (rx_byte s val) = set_note_velocities (snd s) i v) \/
  (exists i, snd (rx_byte s val) = set_cc_values (snd s) i val).
Proof.
  destruct (local_rx_byte_snd s val) as [->| ->]; [by left|].
  apply local_data_byte_store.
Qed.

Lemma local_rx_byte_frame s val :
  midi_note (snd (rx_byte s val)) = midi_note (snd s) /\
  midi_cc_values_prev (snd (rx_byte s val)) = midi_cc_values_prev (snd s).
Proof.
  by destruct (local_rx_byte_store s val) as [->|[(i & v & _ & ->)|(i & ->)]].
Qed.

Lemma local_callback_frame fifo d :
  midi_note (midi_rx_callback_arm fifo d) = midi_note d /\
  midi_cc_values_prev (midi_rx_callback_arm fifo d) = midi_cc_values_prev d.
Proof.
  unfold midi_rx_callback_arm, rx_loop. generalize entry as l. revert d.
  induction fifo as [|val fifo IH]; intros d l; simpl; [done|].
  destruct (rx_byte (l, d) val) as [l' d'] eqn:Hrx.
  destruct (IH d' l') as [-> ->].
  pose proof (local_rx_byte_frame (l, d) val) as Hframe.
  by rewrite Hrx in Hframe.
Qed.

Lemma local_rx_byte_in_range s val :
  is_byte val -> bridge_in_range (snd s) -> bridge_in_range (snd (rx_byte s val)).
Proof.
  intros Hval Hrange. destruct (byte_split val Hval) as [Hd|Hs].
  - rewrite local_rx_data_byte by done. simpl.
    destruct (local_data_byte_store val s) as [->|[(i & v & Hv & ->)|(i & ->)]].
    + done.
    + apply in_range_set_note_velocities; [done|].
      destruct Hv as [-> | ->]; [apply zero_is_data_byte | done].
    + by apply in_range_set_cc_values.
  - destruct s as [l d]. by rewrite local_rx_status_byte.
Qed.

Lemma local_callback_in_range fifo d :
  Forall is_byte fifo -> bridge_in_range d ->
  bridge_in_range (midi_rx_callback_arm fifo d).
Proof.
  unfold midi_rx_callback_arm, rx_loop. generalize entry as l.
  intros l Hfifo. revert d l.
  induction Hfifo as [|val fifo Hval _ IH]; intros d l Hrange; simpl; [done|].
  destruct (rx_byte (l, d) val) as [l' d'] eqn:Hrx.
  apply IH. pose proof (local_rx_byte_in_range (l, d) val Hval Hrange) as H.
  by rewrite Hrx in H.
Qed.

Lemma local_message_run base st b1 b2 d :
  (base mod 16 = 0)%Z -> (0x80 <= base)%Z ->
  (base <= st <= base + 15)%Z -> (st <= 0xFF)%Z ->
  midi_rx_callback_arm [st; b1; b2] d
  = snd (rx_byte (rx_byte (mk_locals base (Z.land st 0x0F) 0 0, d) b1) b2).
Proof.
  intros H1 H2 H3 H4.
  destruct (status_command base st H1 H2 H3 H4) as (Hs & Hcmd & _).
  unfold midi_rx_callback_arm, rx_loop, entry. cbn [fold_left].
  rewrite local_rx_status_byte by done. by rewrite Hcmd.
Qed.

Lemma local_message_store st b1 b2 d :
  is_data_byte b1 -> is_data_byte b2 ->
  ((0x80 <= st <= 0x8F)%Z ->
     midi_rx_callback_arm [st; b1; b2] d = set_note_velocities d (Z.to_nat b1) 0) /\
  ((0x90 <= st <= 0x9F)%Z ->
     midi_rx_callback_arm [st; b1; b2] d = set_note_velocities d (Z.to_nat b1) b2) /\
  ((0xB0 <= st <= 0xBF)%Z ->
     midi_rx_callback_arm [st; b1; b2] d = set_cc_values d (Z.to_nat b1) b2).
Proof.
  intros Hb1 Hb2.
  split; [|split]; intros Hst.
  - rewrite (local_message_run 0x80%Z) by (done || lia).
    rewrite (local_rx_data_byte _ b1), (local_rx_data_byte _ b2) by done. reflexivity.
  - rewrite (local_message_run 0x90%Z) by (done || lia).
    rewrite (local_rx_data_byte _ b1), (local_rx_data_byte _ b2) by done. reflexivity.
  - rewrite (local_message_run 0xB0%Z) by (done || lia).
    rewrite (local_rx_data_byte _ b1), (local_rx_data_byte _ b2) by done. reflexivity.
Qed.

(** X7: a whole message read by the local-state decoder in one invocation.
    A note-on (0x90..0x9F) stores its velocity in [midi_note_velocities] at
    its note number, a note-off (0x80..0x8F) stores 0 there, and a control
    change (0xB0..0xBF) stores its value in [midi_cc_values] at the controller
    number, whatever the channel.  Read back from the bridge: with the index
    inside the array, the cell at the note or controller number holds the
    stored value, and every other cell of that array reads as before. *)
Theorem local_decoder_message st b1 b2 d :
  is_data_byte b1 -> is_data_byte b2 ->
  let d' := midi_rx_callback_arm [st; b1; b2] d in
  let i := Z.to_nat b1 in
  ((0x80 <= st <= 0x8F)%Z ->
     d' = set_note_velocities d i 0 /\
     (i < length (midi_note_velocities d) -> midi_note_velocities d' !! i = Some 0%Z) /\
     (forall k, k <> i -> midi_note_velocities d' !! k = midi_note_velocities d !! k)) /\
  ((0x90 <= st <= 0x9F)%Z ->
     d' = set_note_velocities d i b2 /\
     (i < length (midi_note_velocities d) -> midi_note_velocities d' !! i = Some b2) /\
     (forall k, k <> i -> midi_note_velocities d' !! k = midi_note_velocities d !! k)) /\
  ((0xB0 <= st <= 0xBF)%Z ->
     d' = set_cc_values d i b2 /\
     (i < length (midi_cc_values d) -> midi_cc_values d' !! i = Some b2) /\
     (forall k, k <> i -> midi_cc_values d' !! k = midi_cc_values d !! k)).
Proof.
  intros Hb1 Hb2 d' i. subst d' i.
  destruct (local_message_store st b1 b2 d Hb1 Hb2) as (Hoff & Hon & Hcc).
  split; [|split]; intros Hst;
    [rewrite (Hoff Hst) | rewrite (Hon Hst) | rewrite (Hcc Hst)];
    (split; [done|]); simpl;
    (split; [intros Hi; by apply list_lookup_insert_eq
            | intros k Hk; by apply list_lookup_insert_ne]).
Qed.

Lemma local_decoder_message_witness :
  midi_cc_values (midi_rx_callback_arm [0xB9; 5; 64]%Z zeroed) !! Z.to_nat 5 = Some 64%Z.
Proof.
  assert (H1 : is_data_byte 5) by (unfold is_data_byte; lia).
  assert (H2 : is_data_byte 64) by (unfold is_data_byte; lia).
  destruct (local_decoder_message 0xB9 5 64 zeroed H1 H2) as (_ & _ & Hcc).
  destruct Hcc as (_ & Hread & _); [lia|].
  apply Hread. vm_compute. lia.
Defined.

End LocalDecoderStreams.

(** * The decoders and the background passes together *)
Section DecodersAndPasses.
Import Bridge.

Lemma pass_in_sync d (voices : list Core1.SIMPLE_SYNTH) :
  length (midi_note d) = 128 -> notes_in_sync d ->
  Core1.processaudio_background_loop (d, voices) = Some (d, voices).
Proof.
  intros Hlen Hsync. apply for_each_skip. intros i Hi. apply elem_of_seq in Hi.
  destruct (lookup_lt_is_Some_2 (midi_note d) i) as [n Hn]; [lia|].
  apply (note_slot_unchanged d voices i n Hn). by eapply Hsync.
Qed.

(** X8: the local-state decoder stores note velocities in
    [midi_note_velocities] and never writes a note slot of [midi_note], which
    is what the voice bank's background pass reads.  So whatever bytes it is
    fed, a background pass of core 1 that had nothing to do before the bytes
    arrived has nothing to do after: no voice is started or stopped. *)
Theorem local_decoder_never_reaches_the_voices fifo d (voices : list Core1.SIMPLE_SYNTH) :
  length (midi_note d) = 128 ->
  notes_in_sync d ->
  midi_note (Core0.midi_rx_callback_arm fifo d) = midi_note d /\
  Core1.processaudio_background_loop (Core0.midi_rx_callback_arm fifo d, voices)
  = Some (Core0.midi_rx_callback_arm fifo d, voices).
Proof.
  intros Hlen Hsync. destruct (local_callback_frame fifo d) as [Hnotes _].
  split; [done|]. apply pass_in_sync.
  - by rewrite Hnotes.
  - unfold notes_in_sync. by rewrite Hnotes.
Qed.

Lemma zeroed_in_sync : notes_in_sync zeroed.
Proof.
  intros i n Hn. apply list_elem_of_lookup_2, elem_of_replicate in Hn as [-> _].
  reflexivity.
Qed.

Lemma local_decoder_never_reaches_the_voices_witness :
  midi_note (Core0.midi_rx_callback_arm [0x90; 0x3C; 0x64]%Z zeroed) = midi_note zeroed /\
  Core1.processaudio_background_loop
    (Core0.midi_rx_callback_arm [0x90; 0x3C; 0x64]%Z zeroed, Core1.processaudio_setup)
  = Some (Core0.midi_rx_callback_arm [0x90; 0x3C; 0x64]%Z zeroed, Core1.processaudio_setup).
Proof.
  apply (local_decoder_never_reaches_the_voices [0x90; 0x3C; 0x64]%Z zeroed
           Core1.processaudio_setup).
  - reflexivity.
  - apply zeroed_in_sync.
Defined.

Lemma decoders_agree_step a c val :
  is_byte val ->
  Core0.decoders_agree a c ->
  Core0.decoders_agree (MidiArm.rx_byte a val) (Core0.rx_byte c val).
Proof.
  intros Hval (Hstatus & Hpos & Hnote & Hvel). destruct c as [l d]; simpl in *.
  destruct (byte_split val Hval) as [Hd|Hs].
  - rewrite rx_data_byte, local_rx_data_byte by done.
    unfold Core0.decoders_agree, MidiArm.next_byte, MidiArm.data_byte, Core0.data_byte.
    rewrite Hstatus, Hpos in *. simpl.
    destruct (Z.eqb_spec (Core0.status l) 0x80) as [H80|H80].
    { destruct (Core0.command_num l =? 0)%Z; simpl; rewrite ?Hstatus, ?Hpos.
      - split; [done|]. split; [done|]. split; [intros; congruence|].
        by rewrite velocities_set_velocity, Hvel.
      - split; [done|]. split; [done|]. split; [intros; congruence | done]. }
    destruct (Z.eqb_spec (Core0.status l) 0x90) as [H90|H90].
    { destruct (Z.eqb_spec (Core0.command_num l) 0) as [H0|H0]; simpl;
        rewrite ?Hstatus, ?Hpos.
      - by repeat split.
      - assert (Hnum : MidiArm.midi_note_num (MidiArm.dec a) = Core0.note_num l)
          by (apply Hnote; congruence).
        destruct (Core0.command_num l =? 1)%Z; simpl; rewrite ?Hstatus, ?Hpos.
        + split; [done|]. split; [done|]. split; [done|].
          by rewrite velocities_set_velocity, Hvel, Hnum.
        + by repeat split. }
    destruct (Z.eqb_spec (Core0.status l) 0xB0) as [HB0|HB0].
    { destruct (Core0.command_num l =? 0)%Z; simpl; rewrite ?Hstatus, ?Hpos.
      - split; [done|]. split; [done|]. split; [intros; congruence | done].
      - destruct (Core0.command_num l =? 1)%Z; simpl.
        + destruct (MidiArm.midi_note_num (MidiArm.dec a) =? 74)%Z; simpl;
            rewrite ?Hstatus, ?Hpos;
            (split; [done|]; split; [done|]; split; [intros; congruence | done]).
        + rewrite ?Hstatus, ?Hpos.
          split; [done|]. split; [done|]. split; [intros; congruence | done]. }
    simpl. rewrite ?Hstatus, ?Hpos.
    split; [done|]. split; [done|]. split; [intros; congruence | done].
  - rewrite rx_status_byte, local_rx_status_byte by done.
    unfold Core0.decoders_agree; simpl. by repeat split.
Qed.

(** X9: on note messages the two decoder variants agree.  Fed the same
    bytes in one invocation, starting from bridges whose note velocities are
    equal, the static-state decoder leaves in [midi_note[..].velocity] the
    very velocities that the local-state decoder leaves in
    [midi_note_velocities]. *)
Theorem decoders_agree_on_velocities fifo da dc events :
  Forall is_byte fifo ->
  map velocity (midi_note da) = midi_note_velocities dc ->
  map velocity
    (midi_note (MidiArm.data
       (MidiArm.midi_rx_callback_arm fifo (MidiArm.mk_state MidiArm.reset da events))))
  = midi_note_velocities (Core0.midi_rx_callback_arm fifo dc).
Proof.
  intros Hfifo Hvel.
  unfold MidiArm.midi_rx_callback_arm, Core0.midi_rx_callback_arm, Core0.rx_loop.
  assert (Hstart : Core0.decoders_agree
                     (MidiArm.mk_state MidiArm.reset da events) (Core0.entry, dc)).
  { unfold Core0.decoders_agree; simpl. by repeat split. }
  revert Hstart.
  generalize (MidiArm.mk_state MidiArm.reset da events) as a.
  generalize (Core0.entry, dc) as c.
  induction Hfifo as [|val fifo Hval _ IH]; intros c a Hagree; simpl.
  - apply Hagree.
  - apply IH. by apply decoders_agree_step.
Qed.

Lemma decoders_agree_on_velocities_witness :
  map velocity
    (midi_note (MidiArm.data
       (MidiArm.midi_rx_callback_arm [0x90; 0x3C; 0x64; 0x91; 0x40; 0x50; 0x80; 0x3C; 0x00]%Z
          (MidiArm.mk_state MidiArm.reset zeroed []))))
  = midi_note_velocities
      (Core0.midi_rx_callback_arm [0x90; 0x3C; 0x64; 0x91; 0x40; 0x50; 0x80; 0x3C; 0x00]%Z
         zeroed).
Proof.
  apply (decoders_agree_on_velocities
           [0x90; 0x3C; 0x64; 0x91; 0x40; 0x50; 0x80; 0x3C; 0x00]%Z zeroed zeroed []).
  - apply bytes_are_bytes. reflexivity.
  - reflexivity.
Defined.

End DecodersAndPasses.

(** * Core 2: further properties of the background pass *)
Section ControllerPass.
Import Bridge Core2.

Variable AUDIO_SAMPLE_RATE : Z.

Lemma cell_data_byte (a : list Z) k : Forall is_data_byte a -> is_data_byte (cell a k).
Proof.
  intros Ha. unfold cell. destruct (a !! k) as [v|] eqn:Hv; simpl.
  - by eapply Forall_lookup_1.
  - apply zero_is_data_byte.
Qed.

Lemma cell_insert_eq (a : list Z) k v : k < length a -> cell (<[k := v]> a) k = v.
Proof. intros Hk. unfold cell. by rewrite list_lookup_insert_eq. Qed.

Lemma set_cc_values_prev_same d k :
  cell (midi_cc_values_prev d) k = cell (midi_cc_values d) k ->
  set_cc_values_prev d k (cell (midi_cc_values d) k) = d.
Proof.
  intros Heq. unfold set_cc_values_prev. destruct d as [n nv cc prev]; simpl in *.
  f_equal. rewrite <- Heq. unfold cell.
  destruct (prev !! k) as [p|] eqn:Hp; simpl.
  - by apply list_insert_id.
  - apply list_insert_ge. by apply lookup_ge_None.
Qed.

Lemma cc_slot_full k effect d calls :
  is_data_byte (cell (midi_cc_values d) k) ->
  cc_slot k effect (d, calls)
  = (set_cc_values_prev d k (cell (midi_cc_values d) k),
     calls ++ (if slot_changed d k then [effect (cell (midi_cc_values d) k)] else [])).
Proof.
  intros Hbyte. rewrite cc_slot_eq. unfold slot_changed.
  rewrite (char_of_data_byte _ Hbyte), (byte_of_data_byte _ Hbyte).
  destruct (Z.eqb_spec (cell (midi_cc_values_prev d) k) (cell (midi_cc_values d) k))
    as [Heq|Hne]; simpl; [|done].
  by rewrite set_cc_values_prev_same.
Qed.

Lemma slot_changed_set_prev d i v j :
  i <> j -> slot_changed (set_cc_values_prev d i v) j = slot_changed d j.
Proof. intros Hne. unfold slot_changed; simpl. by rewrite cell_insert_ne. Qed.

Lemma pass_bridge d :
  monitored_slots_hold_data_bytes d ->
  fst (processaudio_background_loop AUDIO_SAMPLE_RATE d)
  = mk_data (midi_note d) (midi_note_velocities d) (midi_cc_values d)
      (<[6 := cell (midi_cc_values d) 6]>
         (<[5 := cell (midi_cc_values d) 5]>
            (<[4 := cell (midi_cc_values d) 4]> (midi_cc_values_prev d)))).
Proof.
  intros Hbytes. unfold processaudio_background_loop.
  rewrite (cc_slot_full 4) by (apply Hbytes; tauto).
  rewrite (cc_slot_full 5) by (apply Hbytes; tauto).
  rewrite (cc_slot_full 6) by (apply Hbytes; tauto).
  reflexivity.
Qed.

(** X10: what a background pass of core 2 does, in full, on a bridge whose
    slots 4, 5 and 6 hold MIDI data bytes (0..127).  It makes one call per
    changed slot, in the order feedback (slot 4), length (slot 5), frequency
    (slot 6), each with the slot's current value, and none for an unchanged
    slot; and in the bridge it writes the previous values of slots 4, 5 and
    6, which become the current ones, and nothing else. *)
Theorem controller_pass_in_full d :
  monitored_slots_hold_data_bytes d ->
  let cc := midi_cc_values d in
  processaudio_background_loop AUDIO_SAMPLE_RATE d
  = (mk_data (midi_note d) (midi_note_velocities d) cc
       (<[6 := cell cc 6]> (<[5 := cell cc 5]> (<[4 := cell cc 4]> (midi_cc_values_prev d)))),
     (if slot_changed d 4 then [delay_modify_feedback (feedback_of (cell cc 4))] else [])
     ++ (if slot_changed d 5
         then [delay_modify_length (length_of AUDIO_SAMPLE_RATE (cell cc 5))] else [])
     ++ (if slot_changed d 6 then [filter_modify_freq (freq_of (cell cc 6))] else [])).
Proof.
  intros Hbytes cc. subst cc. unfold processaudio_background_loop.
  rewrite (cc_slot_full 4) by (apply Hbytes; tauto).
  rewrite (cc_slot_full 5) by (apply Hbytes; tauto).
  rewrite (cc_slot_full 6) by (apply Hbytes; tauto).
  simpl.
  rewrite !slot_changed_set_prev by lia.
  unfold set_cc_values_prev; simpl. by rewrite <- app_assoc.
Qed.

(** X11: each controller change is applied once.  With room for slots 4 to
    6 in [midi_cc_values_prev] and MIDI data bytes (0..127) in slots 4 to 6
    of [midi_cc_values], a second background pass of core 2 right after a
    first one, with no store by the decoder in between, makes no call and
    leaves the bridge as the first pass left it. *)
Theorem controller_change_is_applied_once d :
  7 <= length (midi_cc_values_prev d) ->
  monitored_slots_hold_data_bytes d ->
  processaudio_background_loop AUDIO_SAMPLE_RATE
    (fst (processaudio_background_loop AUDIO_SAMPLE_RATE d))
  = (fst (processaudio_background_loop AUDIO_SAMPLE_RATE d), []).
Proof.
  intros Hlen Hbytes.
  rewrite (pass_bridge d Hbytes). unfold processaudio_background_loop.
  rewrite (cc_slot_unchanged 4), (cc_slot_unchanged 5), (cc_slot_unchanged 6);
    [done | | | | | |]; simpl; try (apply Hbytes; tauto).
  - rewrite cell_insert_eq; [done|]. rewrite !length_insert. lia.
  - rewrite cell_insert_ne, cell_insert_eq by (rewrite ?length_insert; lia). done.
  - rewrite !cell_insert_ne, cell_insert_eq by (rewrite ?length_insert; lia). done.
Qed.

Lemma pass_calls_in_range d :
  (0 <= AUDIO_SAMPLE_RATE)%Z ->
  Forall is_data_byte (midi_cc_values d) ->
  Forall (call_in_range AUDIO_SAMPLE_RATE)
         (snd (processaudio_background_loop AUDIO_SAMPLE_RATE d)).
Proof.
  intros Hsr Hcc. rewrite background_loop_calls.
  assert (Hcell : forall k, (0 <= cell (midi_cc_values d) k <= 127)%Z).
  { intros k. apply (cell_data_byte _ k Hcc). }
  rewrite !char_of_data_byte by apply Hcell.
  repeat apply Forall_app_2.
  - destruct (slot_changed d 4); [|apply Forall_nil_2].
    apply Forall_cons_2; [|apply Forall_nil_2]. simpl. by apply feedback_of_range.
  - destruct (slot_changed d 5); [|apply Forall_nil_2].
    apply Forall_cons_2; [|apply Forall_nil_2]. simpl.
    by apply length_of_range.
  - destruct (slot_changed d 6); [|apply Forall_nil_2].
    apply Forall_cons_2; [|apply Forall_nil_2]. simpl. by apply freq_of_range.
Qed.

End ControllerPass.

Section ControllerPassExamples.
Import Bridge Core2.

Lemma controller_change_is_applied_once_witness :
  processaudio_background_loop 48000
    (fst (processaudio_background_loop 48000 bridge_cc_changed))
  = (fst (processaudio_background_loop 48000 bridge_cc_changed), []).
Proof.
  apply (controller_change_is_applied_once 48000 bridge_cc_changed).
  - vm_compute. lia.
  - intros k [-> | [-> | ->]]; vm_compute; split; discriminate.
Defined.

Lemma controller_pass_in_full_witness :
  processaudio_background_loop 48000 bridge_cc_changed
  = (mk_data (midi_note zeroed) (midi_note_velocities zeroed)
       (midi_cc_values bridge_cc_changed) (midi_cc_values bridge_cc_changed),
     [delay_modify_feedback (feedback_of 64); delay_modify_length (length_of 48000 64);
      filter_modify_freq (freq_of 64)]).
Proof.
  rewrite (controller_pass_in_full 48000 bridge_cc_changed).
  - reflexivity.
  - intros k [-> | [-> | ->]]; vm_compute; split; discriminate.
Defined.

(** X12: no MIDI input can push a DSP parameter out of range.  Starting from
    a bridge whose current values are data bytes, after either decoder has
    read any stream of bytes, every call a background pass of core 2 makes has
    its argument in range: feedback in [0, 0.9], delay length in
    [0, AUDIO_SAMPLE_RATE] and so within the delay buffer of
    AUDIO_SAMPLE_RATE*2 samples, filter frequency in [100, 3100]. *)
Theorem midi_input_keeps_parameters_in_range AUDIO_SAMPLE_RATE fifo s d :
  (0 <= AUDIO_SAMPLE_RATE)%Z ->
  Forall is_byte fifo ->
  bridge_in_range (MidiArm.data s) ->
  bridge_in_range d ->
  Forall (call_in_range AUDIO_SAMPLE_RATE)
    (snd (processaudio_background_loop AUDIO_SAMPLE_RATE
            (MidiArm.data (MidiArm.midi_rx_callback_arm fifo s)))) /\
  Forall (call_in_range AUDIO_SAMPLE_RATE)
    (snd (processaudio_background_loop AUDIO_SAMPLE_RATE
            (Core0.midi_rx_callback_arm fifo d))).
Proof.
  intros Hsr Hfifo Hs Hd. split; apply pass_calls_in_range; try done.
  - assert (Hr : bridge_in_range (MidiArm.data (MidiArm.midi_rx_callback_arm fifo s))).
    { unfold MidiArm.midi_rx_callback_arm. clear Hd. revert s Hs.
      induction Hfifo as [|val fifo Hval _ IH]; intros s Hs; simpl; [done|].
      apply IH. by apply rx_byte_in_range. }
    apply Hr.
  - by apply local_callback_in_range.
Qed.

Lemma midi_input_keeps_parameters_in_range_witness :
  Forall (call_in_range 48000)
    (snd (processaudio_background_loop 48000
            (MidiArm.data (MidiArm.midi_rx_callback_arm [0xB5; 74; 127; 0xFF]%Z
                             (MidiArm.mk_state MidiArm.reset zeroed []))))) /\
  Forall (call_in_range 48000)
    (snd (processaudio_background_loop 48000
            (Core0.midi_rx_callback_arm [0xB5; 74; 127; 0xFF]%Z zeroed))).
Proof.
  apply (midi_input_keeps_parameters_in_range 48000 [0xB5; 74; 127; 0xFF]%Z
           (MidiArm.mk_state MidiArm.reset zeroed []) zeroed).
  - lia.
  - apply bytes_are_bytes. reflexivity.
  - apply zeroed_in_range.
  - apply zeroed_in_range.
Defined.

End ControllerPassExamples.

Section ControllerMessages.
Import Bridge Core2.





End ControllerMessages.

Section ControllerMessageExamples.
Import Bridge Core2.


(** Controller 5 set to 64 at 48 kHz: a delay of 24000 samples. *)
Example delay_length_from_the_wire :
  snd (processaudio_background_loop 48000
         (Core0.midi_rx_callback_arm [0xB9; 5; 64]%Z zeroed))
  = [delay_modify_length 24000].
Proof. reflexivity. Qed.

End ControllerMessageExamples.

(** * Core 1: further properties of the voice bank *)

Lemma for_each_app {St : Type} body idx1 idx2 (s : St) :
  for_each (idx1 ++ idx2) body s = for_each idx1 body s ≫= for_each idx2 body.
Proof.
  revert s. induction idx1 as [|i idx1 IH]; intros s; simpl; [done|].
  destruct (body i s) as [s'|]; simpl; [apply IH | done].
Qed.

(** A loop invariant that follows the loop index. *)
Lemma for_each_seq_invariant {St : Type} (P : nat -> St -> Prop) body a n (s : St) :
  P a s ->
  (forall i x, a <= i < a + n -> P i x -> exists x', body i x = Some x' /\ P (S i) x') ->
  exists s', for_each (seq a n) body s = Some s' /\ P (a + n) s'.
Proof.
  revert a s. induction n as [|n IH]; intros a s Hs Hbody; simpl.
  - rewrite Nat.add_0_r. eauto.
  - destruct (Hbody a s) as (x' & -> & Hx'); [lia | done |]. simpl.
    replace (a + S n) with (S a + n) by lia.
    apply IH; [done|]. intros i x Hi. apply Hbody. lia.
Qed.

Section VoicePass.
Import Bridge Core1.

Lemma acknowledge_in_sync n : velocity n = velocity_prev n -> acknowledge n = n.
Proof. destruct n as [v p]; simpl. intros ->. done. Qed.

Lemma acknowledge_step (notes : list MIDI_NOTE) i n :
  notes !! i = Some n ->
  <[i := acknowledge n]> ((acknowledge <$> take i notes) ++ drop i notes)
  = (acknowledge <$> take (S i) notes) ++ drop (S i) notes.
Proof.
  intros Hn. pose proof (lookup_lt_Some _ _ _ Hn) as Hi.
  rewrite insert_app_r_alt by (rewrite length_fmap, length_take; lia).
  rewrite length_fmap, length_take, Nat.min_l, Nat.sub_diag by lia.
  rewrite (drop_S _ _ _ Hn). simpl.
  rewrite (take_S_r _ _ _ Hn), fmap_app. simpl. by rewrite <- app_assoc.
Qed.

Lemma acknowledged_lookup (notes : list MIDI_NOTE) i n :
  notes !! i = Some n ->
  ((acknowledge <$> take i notes) ++ drop i notes) !! i = Some n.
Proof.
  intros Hn. pose proof (lookup_lt_Some _ _ _ Hn) as Hi.
  rewrite lookup_app_r by (rewrite length_fmap, length_take; lia).
  rewrite length_fmap, length_take, Nat.min_l, Nat.sub_diag by lia.
  rewrite lookup_drop, Nat.add_0_r. done.
Qed.

(** The bridge of [d] with its first [i] note slots acknowledged. *)
Lemma note_slot_acknowledges d (voices : list SIMPLE_SYNTH) i n :
  length voices = 16 ->
  midi_note d !! i = Some n ->
  exists voices',
    note_slot i (mk_data ((acknowledge <$> take i (midi_note d)) ++ drop i (midi_note d))
                   (midi_note_velocities d) (midi_cc_values d) (midi_cc_values_prev d),
                 voices)
    = Some (mk_data ((acknowledge <$> take (S i) (midi_note d)) ++ drop (S i) (midi_note d))
              (midi_note_velocities d) (midi_cc_values d) (midi_cc_values_prev d),
            voices') /\
    length voices' = 16.
Proof.
  intros Hlen Hn. unfold note_slot. cbn [midi_note].
  rewrite (acknowledged_lookup _ _ _ Hn).
  destruct (Z.eqb_spec (velocity n) (velocity_prev n)) as [Heq|Hne]; simpl.
  - exists voices. split; [|done].
    rewrite <- (acknowledge_step _ _ _ Hn), (acknowledge_in_sync n Heq).
    rewrite list_insert_id by (by apply acknowledged_lookup). done.
  - assert (Hd : set_velocity_prev
                   (mk_data ((acknowledge <$> take i (midi_note d)) ++ drop i (midi_note d))
                      (midi_note_velocities d) (midi_cc_values d) (midi_cc_values_prev d))
                   i (velocity n)
                 = mk_data ((acknowledge <$> take (S i) (midi_note d)) ++ drop (S i) (midi_note d))
                     (midi_note_velocities d) (midi_cc_values d) (midi_cc_values_prev d)).
    { unfold set_velocity_prev. cbn [midi_note].
      rewrite (acknowledged_lookup _ _ _ Hn). cbn.
      by rewrite <- (acknowledge_step _ _ _ Hn). }
    rewrite Hd.
    destruct (velocity n =? 0)%Z.
    + destruct (note_off_result i voices Hlen) as (voices' & -> & Hlen' & _).
      exists voices'. by split.
    + destruct (note_on_result i (velocity n) voices Hlen) as (voices' & -> & Hlen' & _).
      exists voices'. by split.
Qed.

(** X14: the background pass of core 1 always returns on a bank of 16
    voices and a bridge of 128 note slots.  In the bridge it sets the
    previous velocity of every note slot to the slot's velocity and writes
    nothing else; the bank keeps its 16 voices; and a second pass right
    after, with no store by the decoder in between, changes nothing at all:
    each velocity change is acted on once. *)
Theorem voice_pass_acknowledges_every_slot d (voices : list SIMPLE_SYNTH) :
  length voices = 16 ->
  length (midi_note d) = 128 ->
  exists voices',
    let d' := mk_data (map acknowledge (midi_note d)) (midi_note_velocities d)
                (midi_cc_values d) (midi_cc_values_prev d) in
    processaudio_background_loop (d, voices) = Some (d', voices') /\
    length voices' = 16 /\
    processaudio_background_loop (d', voices') = Some (d', voices').
Proof.
  intros Hlen Hnotes.
  destruct (for_each_seq_invariant
    (fun i (x : MULTICORE_DATA * list SIMPLE_SYNTH) =>
       fst x = mk_data ((acknowledge <$> take i (midi_note d)) ++ drop i (midi_note d))
                 (midi_note_velocities d) (midi_cc_values d) (midi_cc_values_prev d) /\
       length (snd x) = 16)
    note_slot 0 128 (d, voices)) as ([d' voices'] & Hrun & Hd' & Hlen').
  - simpl. split; [|done]. by destruct d.
  - intros i [di vi] Hi [Hdi Hvi]; simpl in Hdi, Hvi. subst di.
    destruct (lookup_lt_is_Some_2 (midi_note d) i) as [n Hn]; [lia|].
    destruct (note_slot_acknowledges d vi i n Hvi Hn) as (v' & -> & Hv').
    eexists; split; [done|]. by split.
  - simpl in Hd', Hlen'. subst d'.
    rewrite take_ge, drop_ge, app_nil_r in Hrun by lia.
    exists voices'. simpl. split; [exact Hrun|]. split; [done|].
    apply pass_in_sync.
    + simpl. by rewrite length_map.
    + intros i n Hn. simpl in Hn. rewrite list_lookup_fmap in Hn.
      destruct (midi_note d !! i); [|done]. by injection Hn as <-.
Qed.

Lemma voice_pass_acknowledges_every_slot_witness :
  exists voices',
    let d' := mk_data (map acknowledge (midi_note bridge_note_on))
                (midi_note_velocities bridge_note_on)
                (midi_cc_values bridge_note_on) (midi_cc_values_prev bridge_note_on) in
    processaudio_background_loop (bridge_note_on, bank_one_note) = Some (d', voices') /\
    length voices' = 16 /\
    processaudio_background_loop (d', voices') = Some (d', voices').
Proof.
  apply (voice_pass_acknowledges_every_slot bridge_note_on bank_one_note); reflexivity.
Defined.

End VoicePass.

Section NotesFromTheWire.
Import Bridge Core1.

Lemma note_slot_other_slots i d (voices : list SIMPLE_SYNTH) d' voices' j :
  note_slot i (d, voices) = Some (d', voices') ->
  j <> i -> midi_note d' !! j = midi_note d !! j.
Proof.
  unfold note_slot. destruct (midi_note d !! i) as [n|] eqn:Hn; [|discriminate].
  destruct (negb _).
  - intros Hrun Hne.
    assert (Hd' : d' = set_velocity_prev d i (velocity n)).
    { destruct (velocity n =? 0)%Z.
      - destruct (note_off i voices); simpl in Hrun; [|discriminate]. congruence.
      - destruct (note_on i (velocity n) voices); simpl in Hrun; [|discriminate].
        congruence. }
    rewrite Hd', (midi_note_set_velocity_prev _ _ n) by done.
    by rewrite decide_False.
  - intros [= <- <-]. done.
Qed.

(** A pass that finds one changed note slot does what the handler of that
    slot does. *)
Lemma pass_single_slot d (voices : list SIMPLE_SYNTH) i :
  i < 128 -> length (midi_note d) = 128 ->
  (forall j n, j <> i -> midi_note d !! j = Some n -> velocity n = velocity_prev n) ->
  processaudio_background_loop (d, voices) = note_slot i (d, voices).
Proof.
  intros Hi Hlen Hsync. unfold processaudio_background_loop, for_upto.
  replace 128 with (i + S (127 - i)) by lia.
  rewrite seq_app, for_each_app. simpl seq.
  rewrite for_each_skip.
  - cbn [mbind option_bind for_each].
    destruct (note_slot i (d, voices)) as [[d' voices']|] eqn:Hslot;
      cbn [mbind option_bind]; [|done].
    apply for_each_skip. intros j Hj. apply elem_of_seq in Hj.
    assert (Hj' : midi_note d' !! j = midi_note d !! j)
      by (eapply note_slot_other_slots; [done | lia]).
    destruct (lookup_lt_is_Some_2 (midi_note d) j) as [n Hn]; [lia|].
    apply (note_slot_unchanged d' voices' j n); [congruence|].
    apply (Hsync j n); [lia | done].
  - intros j Hj. apply elem_of_seq in Hj.
    destruct (lookup_lt_is_Some_2 (midi_note d) j) as [n Hn]; [lia|].
    apply (note_slot_unchanged d voices j n Hn).
    apply (Hsync j n); [lia | done].
Qed.

(** X15: from the MIDI wire to the voice bank.  On a bridge whose note slots
    are up to date, a note message read by the static-state decoder that
    changes the velocity of note [n] makes the next background pass of core 1
    do one thing: the note-off scan for [n] if the stored velocity is 0 (a
    note-off, or a note-on with velocity 0), the note-on scan for [n] at that
    velocity otherwise; the channel of the message plays no part. *)
Theorem note_message_reaches_the_voices s st n v (voices : list SIMPLE_SYNTH) :
  (0x80 <= st <= 0x9F)%Z ->
  is_data_byte n -> is_data_byte v ->
  length (midi_note (MidiArm.data s)) = 128 ->
  notes_in_sync (MidiArm.data s) ->
  let stored := if (st <? 0x90)%Z then 0%Z else v in
  let d' := MidiArm.data (MidiArm.midi_rx_callback_arm [st; n; v] s) in
  note_velocity (MidiArm.data s) (Z.to_nat n) <> Some stored ->
  processaudio_background_loop (d', voices)
  = (fun voices' => (set_velocity_prev d' (Z.to_nat n) stored, voices'))
    <$> (if (stored =? 0)%Z
         then note_off (Z.to_nat n) voices
         else note_on (Z.to_nat n) stored voices).
Proof.
  intros Hst Hn Hv Hlen Hsync stored d' Hnew.
  assert (Hd' : d' = set_velocity (MidiArm.data s) (Z.to_nat n) stored)
    by by apply static_note_message_store.
  assert (Hi : Z.to_nat n < 128) by (unfold is_data_byte in Hn; lia).
  destruct (lookup_lt_is_Some_2 (midi_note (MidiArm.data s)) (Z.to_nat n)) as [m Hm];
    [lia|].
  assert (Hslot : midi_note d' !! Z.to_nat n = Some (mk_note stored (velocity_prev m))).
  { rewrite Hd', midi_note_set_velocity, Hm. by rewrite decide_True. }
  rewrite (pass_single_slot d' voices (Z.to_nat n)); [| done | |].
  - unfold note_slot. rewrite Hslot. simpl.
    destruct (Z.eqb_spec stored (velocity_prev m)) as [Heq|_].
    { exfalso. apply Hnew. unfold note_velocity. rewrite Hm. simpl.
      rewrite (Hsync _ _ Hm). congruence. }
    simpl. destruct (stored =? 0)%Z.
    + by destruct (note_off (Z.to_nat n) voices).
    + by destruct (note_on (Z.to_nat n) stored voices).
  - by rewrite Hd', length_set_velocity.
  - intros j x Hj Hx. rewrite Hd', midi_note_set_velocity, Hm in Hx.
    rewrite decide_False in Hx by done. by eapply Hsync.
Qed.

Lemma note_message_reaches_the_voices_witness :
  let s := MidiArm.mk_state MidiArm.reset zeroed [] in
  let d' := MidiArm.data (MidiArm.midi_rx_callback_arm [0x93; 0x3C; 0x64]%Z s) in
  processaudio_background_loop (d', processaudio_setup)
  = (fun voices' => (set_velocity_prev d' (Z.to_nat 0x3C) 0x64, voices'))
    <$> (if (0x64 =? 0)%Z
         then note_off (Z.to_nat 0x3C) processaudio_setup
         else note_on (Z.to_nat 0x3C) 0x64 processaudio_setup).
Proof.
  apply (note_message_reaches_the_voices (MidiArm.mk_state MidiArm.reset zeroed [])
           0x93 0x3C 0x64 processaudio_setup).
  - lia.
  - unfold is_data_byte. lia.
  - unfold is_data_byte. lia.
  - reflexivity.
  - apply zeroed_in_sync.
  - vm_compute. discriminate.
Defined.

Lemma note_ons_fill_in_order ns (pre : list SIMPLE_SYNTH) k :
  Forall (fun v => playing v = true) pre ->
  length pre + k = 16 ->
  note_ons ns (pre ++ replicate k silent)
  = Some (pre ++ map started (take k ns) ++ replicate (k - length ns) silent).
Proof.
  revert pre k. induction ns as [|nv ns IH]; intros pre k Hpre Hlen.
  - simpl. rewrite take_nil, Nat.sub_0_r. done.
  - simpl note_ons.
    assert (Hbank : length (pre ++ replicate k silent) = 16)
      by (rewrite length_app, length_replicate; lia).
    destruct (note_on_result (fst nv) (snd nv) _ Hbank)
      as (voices' & -> & _ & Hfirst & Hnone & _). simpl.
    destruct k as [|k].
    + rewrite (Hnone); [|].
      * rewrite (IH pre 0) by done. simpl. done.
      * intros j v Hj. simpl in Hj. rewrite app_nil_r in Hj.
        unfold free. rewrite Forall_forall in Hpre.
        rewrite (Hpre v); [done|]. apply list_elem_of_lookup. eauto.
    + rewrite (Hfirst (length pre) silent).
      * simpl replicate.
        rewrite insert_app_r_alt, Nat.sub_diag by lia. simpl.
        change (synth_play_note silent (fst nv) (inject_Z (snd nv) * (1 # 128)))
          with (started nv).
        replace (pre ++ started nv :: replicate k silent)
          with ((pre ++ [started nv]) ++ replicate k silent)
          by (by rewrite <- app_assoc).
        rewrite (IH (pre ++ [started nv]) k).
        -- simpl. by rewrite <- app_assoc.
        -- apply Forall_app_2; [done|]. by apply Forall_cons_2; [|apply Forall_nil_2].
        -- rewrite length_app. simpl. lia.
      * split; [|split].
        -- rewrite lookup_app_r by lia. by rewrite Nat.sub_diag.
        -- done.
        -- intros j w Hj Hw. rewrite lookup_app_l in Hw by lia.
           unfold free. rewrite Forall_forall in Hpre.
           rewrite (Hpre w); [done|]. apply list_elem_of_lookup. eauto.
Qed.

(** X16: voices are handed out in index order.  Note-ons given one after
    another to the bank that setup leaves take voices 0, 1, 2, ... in that
    order, each voice getting the note and velocity/128 of its note-on; the
    note-ons after the sixteenth change nothing. *)
Theorem voices_are_taken_in_index_order ns :
  note_ons ns processaudio_setup
  = Some (map started (take 16 ns) ++ replicate (16 - length ns) silent).
Proof.
  apply (note_ons_fill_in_order ns [] 16); [apply Forall_nil_2 | done].
Qed.

(** Three notes, then the bank is played full and a seventeenth note dropped. *)
Example three_notes_in_order :
  note_ons [(60, 100%Z); (64, 90%Z); (67, 80%Z)] processaudio_setup
  = Some ([mk_synth true 60 (100 # 128) 0; mk_synth true 64 (90 # 128) 0;
           mk_synth true 67 (80 # 128) 0] ++ replicate 13 silent).
Proof. reflexivity. Qed.

End NotesFromTheWire.

(** * The audio callbacks *)

Lemma mapped_prefix_lookup {A : Type} (f : A -> A) (l : list A) i x :
  l !! i = Some x -> ((f <$> take i l) ++ drop i l) !! i = Some x.
Proof.
  intros Hx. pose proof (lookup_lt_Some _ _ _ Hx) as Hi.
  rewrite lookup_app_r by (rewrite length_fmap, length_take; lia).
  rewrite length_fmap, length_take, Nat.min_l, Nat.sub_diag by lia.
  rewrite lookup_drop, Nat.add_0_r. done.
Qed.

Lemma mapped_prefix_step {A : Type} (f : A -> A) (l : list A) i x :
  l !! i = Some x ->
  <[i := f x]> ((f <$> take i l) ++ drop i l) = (f <$> take (S i) l) ++ drop (S i) l.
Proof.
  intros Hx. pose proof (lookup_lt_Some _ _ _ Hx) as Hi.
  rewrite insert_app_r_alt by (rewrite length_fmap, length_take; lia).
  rewrite length_fmap, length_take, Nat.min_l, Nat.sub_diag by lia.
  rewrite (drop_S _ _ _ Hx). simpl.
  rewrite (take_S_r _ _ _ Hx), fmap_app. simpl. by rewrite <- app_assoc.
Qed.

Section SynthCallback.
Import Core1.

Variable AUDIO_BLOCK_SIZE : nat.
Variable synth_read : SIMPLE_SYNTH -> nat -> SIMPLE_SYNTH * list Q.

(** The loop over the voices: every voice is read once, in index order, and
    its block mixed into the accumulator. *)
Lemma mix_voices_in_order (voices : list SIMPLE_SYNTH) :
  length voices = 16 ->
  mix_voices AUDIO_BLOCK_SIZE synth_read voices
  = Some (map (fun v => fst (synth_read v AUDIO_BLOCK_SIZE)) voices,
          foldl (fun acc v =>
                   mix_2x1 (snd (synth_read v AUDIO_BLOCK_SIZE)) acc acc AUDIO_BLOCK_SIZE)
                (clear_buffer (replicate AUDIO_BLOCK_SIZE 0%Q) AUDIO_BLOCK_SIZE) voices).
Proof.
  intros Hlen. unfold mix_voices, for_upto.
  set (f := fun v => fst (synth_read v AUDIO_BLOCK_SIZE)).
  set (g := fun acc v =>
              mix_2x1 (snd (synth_read v AUDIO_BLOCK_SIZE)) acc acc AUDIO_BLOCK_SIZE).
  set (acc0 := clear_buffer _ _).
  destruct (for_each_seq_invariant
    (fun i (x : list SIMPLE_SYNTH * list Q) =>
       fst x = (f <$> take i voices) ++ drop i voices /\
       snd x = foldl g acc0 (take i voices))
    (mix_voice AUDIO_BLOCK_SIZE synth_read) 0 16 (voices, acc0))
    as ([vs acc] & Hrun & Hvs & Hacc).
  - done.
  - intros i [vs acc] Hi [Hvs Hacc]; simpl in Hvs, Hacc. subst vs acc.
    destruct (lookup_lt_is_Some_2 voices i) as [v Hv]; [lia|].
    unfold mix_voice. rewrite (mapped_prefix_lookup f voices i v Hv).
    destruct (synth_read v AUDIO_BLOCK_SIZE) as [v' block] eqn:Hread.
    eexists; split; [done|]. simpl. split.
    + rewrite <- (mapped_prefix_step f voices i v Hv). subst f. simpl.
      by rewrite Hread.
    + rewrite (take_S_r _ _ _ Hv), foldl_app. simpl. subst g. simpl.
      by rewrite Hread.
  - simpl in Hvs, Hacc. rewrite Hrun, Hvs, Hacc.
    by rewrite !take_ge, drop_ge, app_nil_r by lia.
Qed.

(** X17: the audio callback of core 1, in full.  On a bank of 16 voices it
    returns; every voice, playing or not, has had its oscillator read for
    exactly one block; and each of the two output buffers holds its own
    previous first AUDIO_BLOCK_SIZE samples scaled by 0.25, the samples after
    them untouched. *)
Theorem synth_callback_in_full s :
  length (synth_voices s) = 16 ->
  processaudio_callback AUDIO_BLOCK_SIZE synth_read s
  = Some (mk_audio
            (map (fun v => fst (synth_read v AUDIO_BLOCK_SIZE)) (synth_voices s))
            (map (Qmult (1 # 4)) (take AUDIO_BLOCK_SIZE (audiochannel_0_left_out s))
               ++ drop AUDIO_BLOCK_SIZE (audiochannel_0_left_out s))
            (map (Qmult (1 # 4)) (take AUDIO_BLOCK_SIZE (audiochannel_0_right_out s))
               ++ drop AUDIO_BLOCK_SIZE (audiochannel_0_right_out s))).
Proof.
  intros Hlen. unfold processaudio_callback.
  by rewrite mix_voices_in_order.
Qed.

Lemma sum_of_blocks (voices : list SIMPLE_SYNTH) acc :
  (forall v, length (snd (synth_read v AUDIO_BLOCK_SIZE)) = AUDIO_BLOCK_SIZE) ->
  length acc = AUDIO_BLOCK_SIZE ->
  foldl (fun acc v =>
           mix_2x1 (snd (synth_read v AUDIO_BLOCK_SIZE)) acc acc AUDIO_BLOCK_SIZE)
        acc voices
  = foldl (fun acc v => zip_with Qplus (snd (synth_read v AUDIO_BLOCK_SIZE)) acc)
          acc voices.
Proof.
  intros Hblock. revert acc. induction voices as [|v voices IH]; intros acc Hacc; [done|].
  simpl.
  assert (Hmix : mix_2x1 (snd (synth_read v AUDIO_BLOCK_SIZE)) acc acc AUDIO_BLOCK_SIZE
                 = zip_with Qplus (snd (synth_read v AUDIO_BLOCK_SIZE)) acc).
  { unfold mix_2x1. rewrite !take_ge, drop_ge, app_nil_r by (rewrite ?Hblock; lia).
    done. }
  rewrite Hmix. apply IH. rewrite length_zip_with, Hblock, Hacc. lia.
Qed.

(** X18: the mix the callback accumulates.  When every oscillator writes a
    whole block, the accumulator after the loop over the 16 voices is the
    sample-wise sum of the 16 blocks, added in ascending voice order onto a
    block of zeros. *)
Theorem accumulator_is_the_sum_of_the_blocks (voices : list SIMPLE_SYNTH) :
  length voices = 16 ->
  (forall v, length (snd (synth_read v AUDIO_BLOCK_SIZE)) = AUDIO_BLOCK_SIZE) ->
  snd <$> mix_voices AUDIO_BLOCK_SIZE synth_read voices
  = Some (foldl (fun acc v => zip_with Qplus (snd (synth_read v AUDIO_BLOCK_SIZE)) acc)
                (replicate AUDIO_BLOCK_SIZE 0%Q) voices).
Proof.
  intros Hlen Hblock. rewrite mix_voices_in_order by done. simpl. f_equal.
  unfold clear_buffer. rewrite drop_ge, app_nil_r by (rewrite length_replicate; lia).
  apply sum_of_blocks; [done | apply length_replicate].
Qed.

End SynthCallback.

Section SynthCallbackExamples.
Import Core1.

Lemma synth_callback_in_full_witness :
  processaudio_callback 4 flat_read (mk_audio bank_doubled [1; 1; 1; 1; 1]%Q [])
  = Some (mk_audio
            (map (fun v => fst (flat_read v 4)) bank_doubled)
            (map (Qmult (1 # 4)) (take 4 [1; 1; 1; 1; 1]%Q) ++ drop 4 [1; 1; 1; 1; 1]%Q)
            (map (Qmult (1 # 4)) (take 4 []) ++ drop 4 [])).
Proof.
  apply (synth_callback_in_full 4 flat_read (mk_audio bank_doubled [1; 1; 1; 1; 1]%Q [])).
  reflexivity.
Defined.

Lemma accumulator_is_the_sum_of_the_blocks_witness :
  snd <$> mix_voices 4 flat_read bank_doubled
  = Some (foldl (fun acc v => zip_with Qplus (snd (flat_read v 4)) acc)
                (replicate 4 0%Q) bank_doubled).
Proof.
  apply (accumulator_is_the_sum_of_the_blocks 4 flat_read bank_doubled).
  - reflexivity.
  - intros v. apply length_replicate.
Defined.

(** Voices 0 and 1 at amplitudes 100/128 and 90/128: every sample of the mix
    is 190/128. *)
Example mix_of_two_voices :
  snd <$> mix_voices 2 flat_read bank_doubled = Some [24320 # 16384; 24320 # 16384]%Q /\
  (24320 # 16384 == 190 # 128)%Q.
Proof. split; reflexivity. Qed.

End SynthCallbackExamples.

Section FilterDelayCallback.
Import Core2.

Lemma copy_sample_step (src dst : list Q) i :
  i < length src -> i < length dst ->
  copy_sample src (block_over i src dst) i = Some (block_over (S i) src dst).
Proof.
  intros Hsrc Hdst. unfold copy_sample, block_over.
  destruct (lookup_lt_is_Some_2 src i Hsrc) as [x Hx].
  destruct (lookup_lt_is_Some_2 dst i Hdst) as [y Hy].
  rewrite Hx. simpl.
  rewrite lookup_app_r by (rewrite length_take; lia).
  rewrite length_take, Nat.min_l, Nat.sub_diag, lookup_drop, Nat.add_0_r, Hy by lia.
  simpl. f_equal.
  rewrite insert_app_r_alt by (rewrite length_take; lia).
  rewrite length_take, Nat.min_l, Nat.sub_diag by lia.
  rewrite (drop_S _ _ _ Hy), (take_S_r _ _ _ Hx). simpl.
  by rewrite <- app_assoc.
Qed.

Variable AUDIO_BLOCK_SIZE : nat.
Variable BIQUAD_FILTER : Type.
Variable DELAY_LPF : Type.
Variable filter_read : BIQUAD_FILTER -> list Q -> list Q -> nat -> BIQUAD_FILTER * list Q.
Variable delay_read : DELAY_LPF -> list Q -> list Q -> nat -> DELAY_LPF * list Q.

(** The routing loop: after it, each output buffer starts with the block of
    its source. *)
Lemma route_block (audio_temp2 : list Q) inp out :
  AUDIO_BLOCK_SIZE <= length audio_temp2 ->
  block_fits AUDIO_BLOCK_SIZE inp -> block_fits AUDIO_BLOCK_SIZE out ->
  for_upto AUDIO_BLOCK_SIZE (route_sample audio_temp2 inp) out
  = Some (mk_channels
            (block_over AUDIO_BLOCK_SIZE audio_temp2 (audiochannel_0_left out))
            (block_over AUDIO_BLOCK_SIZE audio_temp2 (audiochannel_0_right out))
            (block_over AUDIO_BLOCK_SIZE (audiochannel_1_left inp) (audiochannel_1_left out))
            (block_over AUDIO_BLOCK_SIZE (audiochannel_1_right inp) (audiochannel_1_right out))
            (block_over AUDIO_BLOCK_SIZE (audiochannel_2_left inp) (audiochannel_2_left out))
            (block_over AUDIO_BLOCK_SIZE (audiochannel_2_right inp) (audiochannel_2_right out))
            (block_over AUDIO_BLOCK_SIZE (audiochannel_3_left inp) (audiochannel_3_left out))
            (block_over AUDIO_BLOCK_SIZE (audiochannel_3_right inp) (audiochannel_3_right out))).
Proof.
  intros Ht (_ & _ & Hi1 & Hi2 & Hi3 & Hi4 & Hi5 & Hi6)
         (Ho1 & Ho2 & Ho3 & Ho4 & Ho5 & Ho6 & Ho7 & Ho8).
  unfold for_upto.
  destruct (for_each_seq_invariant
    (fun i x =>
       x = mk_channels
             (block_over i audio_temp2 (audiochannel_0_left out))
             (block_over i audio_temp2 (audiochannel_0_right out))
             (block_over i (audiochannel_1_left inp) (audiochannel_1_left out))
             (block_over i (audiochannel_1_right inp) (audiochannel_1_right out))
             (block_over i (audiochannel_2_left inp) (audiochannel_2_left out))
             (block_over i (audiochannel_2_right inp) (audiochannel_2_right out))
             (block_over i (audiochannel_3_left inp) (audiochannel_3_left out))
             (block_over i (audiochannel_3_right inp) (audiochannel_3_right out)))
    (route_sample audio_temp2 inp) 0 AUDIO_BLOCK_SIZE out) as (x & Hrun & Hx).
  - unfold block_over. simpl. rewrite !drop_0. by destruct out.
  - intros i x Hi ->. eexists. split; [|reflexivity].
    unfold route_sample. cbn [audiochannel_0_left audiochannel_0_right
      audiochannel_1_left audiochannel_1_right audiochannel_2_left
      audiochannel_2_right audiochannel_3_left audiochannel_3_right].
    rewrite !copy_sample_step by lia. reflexivity.
  - simpl in Hx. by rewrite Hrun, Hx.
Qed.

(** X19: the audio callback of core 2.  With every buffer at least a block
    long, it returns; the block the delay produced from the filtered left
    input of channel 0 is written to both the left and the right output of
    channel 0, so that pair is mono and the right input of channel 0 is not
    used; channels 1, 2 and 3 get the block of their own input, sample for
    sample; and whatever lies past the block in an output buffer is left as it
    was. *)
Theorem filter_delay_callback_routes_the_block lp_filter audio_delay inp out :
  let r := filter_then_delay AUDIO_BLOCK_SIZE BIQUAD_FILTER DELAY_LPF
             filter_read delay_read lp_filter audio_delay (audiochannel_0_left inp) in
  AUDIO_BLOCK_SIZE <= length (snd r) ->
  block_fits AUDIO_BLOCK_SIZE inp -> block_fits AUDIO_BLOCK_SIZE out ->
  processaudio_callback AUDIO_BLOCK_SIZE BIQUAD_FILTER DELAY_LPF
    filter_read delay_read lp_filter audio_delay inp out
  = Some (fst r,
          mk_channels
            (block_over AUDIO_BLOCK_SIZE (snd r) (audiochannel_0_left out))
            (block_over AUDIO_BLOCK_SIZE (snd r) (audiochannel_0_right out))
            (block_over AUDIO_BLOCK_SIZE (audiochannel_1_left inp) (audiochannel_1_left out))
            (block_over AUDIO_BLOCK_SIZE (audiochannel_1_right inp) (audiochannel_1_right out))
            (block_over AUDIO_BLOCK_SIZE (audiochannel_2_left inp) (audiochannel_2_left out))
            (block_over AUDIO_BLOCK_SIZE (audiochannel_2_right inp) (audiochannel_2_right out))
            (block_over AUDIO_BLOCK_SIZE (audiochannel_3_left inp) (audiochannel_3_left out))
            (block_over AUDIO_BLOCK_SIZE (audiochannel_3_right inp) (audiochannel_3_right out))).
Proof.
  intros r Hr Hinp Hout. unfold processaudio_callback. fold r.
  destruct r as [[f' d'] audio_temp2]. simpl in Hr |- *.
  by rewrite route_block.
Qed.

End FilterDelayCallback.

Section FilterDelayCallbackExamples.
Import Core2.

Lemma filter_delay_callback_routes_the_block_witness :
  let r := filter_then_delay 2 unit unit halving_read echo_read tt tt
             (audiochannel_0_left inputs_by_channel) in
  processaudio_callback 2 unit unit halving_read echo_read tt tt
    inputs_by_channel outputs_of_sevens
  = Some (fst r,
          mk_channels
            (block_over 2 (snd r) [7; 7; 7]%Q) (block_over 2 (snd r) [7; 7; 7]%Q)
            (block_over 2 [1; 1]%Q [7; 7; 7]%Q) (block_over 2 [1; 1]%Q [7; 7; 7]%Q)
            (block_over 2 [2; 2]%Q [7; 7; 7]%Q) (block_over 2 [2; 2]%Q [7; 7; 7]%Q)
            (block_over 2 [3; 3]%Q [7; 7; 7]%Q) (block_over 2 [3; 3]%Q [7; 7; 7]%Q)).
Proof.
  apply (filter_delay_callback_routes_the_block 2 unit unit halving_read echo_read
           tt tt inputs_by_channel outputs_of_sevens).
  - simpl. lia.
  - unfold block_fits. simpl. lia.
  - unfold block_fits. simpl. lia.
Defined.

(** The halved left input on both sides of channel 0, the rest passed
    through, the third sample of every output untouched. *)
Example routed_block :
  snd <$> processaudio_callback 2 unit unit halving_read echo_read tt tt
            inputs_by_channel outputs_of_sevens
  = Some (mk_channels [1 # 2; 1 # 2; 7]%Q [1 # 2; 1 # 2; 7]%Q
            [1; 1; 7]%Q [1; 1; 7]%Q [2; 2; 7]%Q [2; 2; 7]%Q [3; 3; 7]%Q [3; 3; 7]%Q).
Proof. reflexivity. Qed.

End FilterDelayCallbackExamples.

(** * Ranges *)
Section ScalingEdges.
Import Bridge Core2.

Variable AUDIO_SAMPLE_RATE : Z.

(** X20: the scalings divide by 128, not 127, so the top of each range is
    never reached.  For controller bytes [v <= w] in 0..127 each of the three
    scalings is monotone; the feedback stays below 0.9, the delay length
    below AUDIO_SAMPLE_RATE and the frequency below 3100; and the byte 0 gives
    feedback 0, a delay of 0 samples and 100 Hz. *)
Theorem controller_scaling_edges v w :
  (0 < AUDIO_SAMPLE_RATE)%Z ->
  (0 <= v)%Z -> (v <= w)%Z -> (w <= 127)%Z ->
  (feedback_of v <= feedback_of w /\ feedback_of w < 9 # 10)%Q /\
  (length_of AUDIO_SAMPLE_RATE v <= length_of AUDIO_SAMPLE_RATE w < AUDIO_SAMPLE_RATE)%Z /\
  (freq_of v <= freq_of w /\ freq_of w < 3100)%Q /\
  (feedback_of 0 == 0)%Q /\ length_of AUDIO_SAMPLE_RATE 0 = 0%Z /\ (freq_of 0 == 100)%Q.
Proof.
  intros Hsr Hv Hvw Hw.
  split; [|split; [|split; [|split; [|split]]]].
  - unfold feedback_of, scale128, Qdiv, Qmult, Qinv, Qle, Qlt, inject_Z; simpl. lia.
  - destruct (length_of_floor AUDIO_SAMPLE_RATE v) as [_ ->]; [lia | lia |].
    destruct (length_of_floor AUDIO_SAMPLE_RATE w) as [_ ->]; [lia | lia |].
    split.
    + apply Z.div_le_mono; nia.
    + apply Z.div_lt_upper_bound; nia.
  - unfold freq_of, scale128, Qdiv, Qmult, Qplus, Qinv, Qle, Qlt, inject_Z; simpl. lia.
  - reflexivity.
  - destruct (length_of_floor AUDIO_SAMPLE_RATE 0) as [_ ->]; [lia | lia |].
    by rewrite Z.mul_0_r.
  - reflexivity.
Qed.

End ScalingEdges.

Section ScalingEdgesExamples.
Import Core2.

Lemma controller_scaling_edges_witness :
  (feedback_of 64 <= feedback_of 127 /\ feedback_of 127 < 9 # 10)%Q /\
  (length_of 48000 64 <= length_of 48000 127 < 48000)%Z /\
  (freq_of 64 <= freq_of 127 /\ freq_of 127 < 3100)%Q /\
  (feedback_of 0 == 0)%Q /\ length_of 48000 0 = 0%Z /\ (freq_of 0 == 100)%Q.
Proof.
  apply (controller_scaling_edges 48000 64 127); lia.
Defined.

(** At 48 kHz the longest delay a controller can ask for is 47625 samples. *)
Example longest_delay_at_48000 : length_of 48000 127 = 47625%Z.
Proof. reflexivity. Qed.

End ScalingEdgesExamples.

Section StaticDecoderState.
Import Bridge MidiArm.

Lemma rx_byte_decoder_in_range s val :
  is_byte val -> decoder_in_range (dec s) -> decoder_in_range (dec (rx_byte s val)).
Proof.
  intros Hval (Hch & Hnum & Hpos & Hst).
  destruct (rx_byte_cases s val Hval) as [[Hs ->]|[Hd ->]].
  - unfold decoder_in_range; simpl.
    rewrite land_high_nibble, land_low_nibble by done.
    unfold is_status_byte in Hs.
    pose proof (Z.mod_pos_bound val 16).
    pose proof (Z.div_mod val 16).
    split; [lia|]. split; [lia|]. split; [lia|].
    right. split; [lia|]. rewrite Z.mul_comm. apply Z.mod_mul. lia.
  - unfold decoder_in_range, next_byte. simpl.
    destruct (data_byte_position val s) as (_ & -> & ->).
    split; [done|]. split.
    + unfold data_byte, with_note_num, log_event, with_data.
      unfold is_data_byte in Hd.
      repeat match goal with
             | |- context [if ?b then _ else _] => destruct b; simpl
             end; lia.
    + split; [|done].
      pose proof (Z.mod_pos_bound (midi_byte_num (dec (data_byte val s)) + 1) 256).
      lia.
Qed.

(** X21: the static decoder state stays in range.  Fed bytes, from the reset
    state or any state in range, the decoder keeps its channel in 0..15, its
    stored note or controller number in 0..127 and its byte position in
    0..255, and its status is 0 or one of 0x80, 0x90, ..., 0xF0: the indices it
    uses for [midi_note] and [midi_cc_values] never leave 0..127 and 0..15. *)
Theorem static_decoder_state_in_range fifo s :
  Forall is_byte fifo ->
  decoder_in_range (dec s) ->
  decoder_in_range (dec (midi_rx_callback_arm fifo s)).
Proof.
  unfold midi_rx_callback_arm. intros Hfifo. revert s.
  induction Hfifo as [|val fifo Hval _ IH]; intros s Hs; simpl; [done|].
  apply IH. by apply rx_byte_decoder_in_range.
Qed.

Lemma static_decoder_state_in_range_witness :
  decoder_in_range
    (dec (midi_rx_callback_arm [0x7F; 0xBF; 0x7F; 0x7F; 0xFF; 0x00]%Z
            (mk_state reset zeroed []))).
Proof.
  apply (static_decoder_state_in_range [0x7F; 0xBF; 0x7F; 0x7F; 0xFF; 0x00]%Z
           (mk_state reset zeroed [])).
  - apply bytes_are_bytes. reflexivity.
  - unfold decoder_in_range. simpl. lia.
Defined.

End StaticDecoderState.
